(** * SuggestService (suggest.go): request assembly and response decoding

    A shallow embedding of [SuggestService] and its [Do] method, with the
    parts of Go's standard packages it calls ([strings.Join],
    [url.Values], [url.QueryEscape], the two [encoding/json] decoding
    stages) written out as functions, and the collaborators that live
    outside suggest.go (the client, the transport, [checkResponse],
    [cleanPathString], the suggesters) taken as parameters. *)

From Stdlib Require Import String Ascii List ZArith NArith Lia.
From stdpp Require Import base option list sorting gmap strings.

#[local] Set Warnings "-clear-no-such-hyp".

(** ** Go strings: package [strings] *)

Module strings.

(** [strings.Join(elems, sep)]: the elements with [sep] between
    consecutive ones; the empty string for no element. *)
Fixpoint Join (elems : list string) (sep : string) : string :=
  match elems with
  | [] => ""
  | [x] => x
  | x :: xs => x +:+ sep +:+ Join xs sep
  end.

(** [strings.Contains] for a single byte. *)
Fixpoint ContainsByte (s : string) (c : ascii) : bool :=
  match s with
  | EmptyString => false
  | String a s' => if Ascii.eqb a c then true else ContainsByte s' c
  end.

(** [strings.Count] for a single byte. *)
Fixpoint CountByte (s : string) (c : ascii) : nat :=
  match s with
  | EmptyString => 0
  | String a s' => (if Ascii.eqb a c then 1 else 0) + CountByte s' c
  end.

(** Every byte of [s] satisfies [p]. *)
Fixpoint AllBytes (p : ascii → bool) (s : string) : bool :=
  match s with
  | EmptyString => true
  | String a s' => p a && AllBytes p s'
  end.

End strings.

(** ** Go maps: iteration order

    A [for k, v := range m] loop over a Go map visits every entry once,
    in an order the language leaves unspecified.  An iteration order is
    any enumeration of the entries of the map; every statement below
    that involves a [range] over a map is made for all of them. *)

Record MapOrder := {
  range : ∀ V : Type, gmap string V → list (string * V);
  range_perm : ∀ (V : Type) (m : gmap string V), range V m ≡ₚ map_to_list m
}.

Arguments range _ {V} _.

(** The enumeration stdpp computes is one of them. *)
Definition canonical_order : MapOrder :=
  {| range := λ V m, map_to_list m;
     range_perm := λ V m, reflexivity (map_to_list m) |}.

(** Another one: the same enumeration, backwards. *)
Definition reversed_order : MapOrder :=
  {| range := λ V m, reverse (map_to_list m);
     range_perm := λ V m, reverse_Permutation (map_to_list m) |}.

(** ** Package [net/url] *)

Module url.

Definition upperhex : string := "0123456789ABCDEF".

Definition hexdigit (n : N) : ascii :=
  match String.get (N.to_nat n) upperhex with
  | Some c => c
  | None => "0"%char
  end.

Definition is_alnum (c : ascii) : bool :=
  let n := N_of_ascii c in
  ((97 <=? n) && (n <=? 122) || (65 <=? n) && (n <=? 90)
   || (48 <=? n) && (n <=? 57))%N.

(** [shouldEscape(c, encodeQueryComponent)]: letters, digits and the
    marks [-], [_], [.], [~] are kept; the reserved characters and
    everything else are escaped. *)
Definition shouldEscape (c : ascii) : bool :=
  if is_alnum c then false
  else match c with
       | "-" | "_" | "." | "~" => false
       | _ => true
       end%char.

(** [escape(s, encodeQueryComponent)]: a space becomes [+], a byte to
    escape becomes [%XX] in upper-case hexadecimal.  (The source first
    counts the bytes to escape and returns [s] itself when there is
    none; the result is the same string.) *)
Fixpoint QueryEscape (s : string) : string :=
  match s with
  | EmptyString => EmptyString
  | String c s' =>
      if Ascii.eqb c " " then String "+" (QueryEscape s')
      else if shouldEscape c then
        let n := N_of_ascii c in
        String "%" (String (hexdigit (N.shiftr n 4))
                      (String (hexdigit (N.land n 15)) (QueryEscape s')))
      else String c (QueryEscape s')
  end.

(** The bytes [QueryEscape] writes: the unreserved ones, [+] and [%]. *)
Definition escaped_alphabet (c : ascii) : bool :=
  negb (shouldEscape c)
  || match c with "+" | "%" => true | _ => false end%char.

(** [ishex] and [unhex] *)
Definition ishex (c : ascii) : bool :=
  let n := N_of_ascii c in
  ((48 <=? n) && (n <=? 57) || (97 <=? n) && (n <=? 102)
   || (65 <=? n) && (n <=? 70))%N.

Definition unhex (c : ascii) : N :=
  let n := N_of_ascii c in
  if ((48 <=? n) && (n <=? 57))%N then n - 48
  else if ((97 <=? n) && (n <=? 102))%N then n - 97 + 10
  else if ((65 <=? n) && (n <=? 70))%N then n - 65 + 10
  else 0.

(** [url.QueryUnescape]: the inverse transformation; [None] is the
    [EscapeError] for a percent sign not followed by two hexadecimal
    digits. *)
Fixpoint QueryUnescape (s : string) : option string :=
  match s with
  | EmptyString => Some EmptyString
  | String "%" (String h1 (String h2 rest)) =>
      if ishex h1 && ishex h2
      then String (ascii_of_N (N.lor (N.shiftl (unhex h1) 4) (unhex h2)))
             <$> QueryUnescape rest
      else None
  | String "%" _ => None
  | String "+" rest => String " " <$> QueryUnescape rest
  | String c rest => String c <$> QueryUnescape rest
  end%char.

(** [type Values map[string][]string] *)
Abbreviation Values := (gmap string (list string)).

(** [make(url.Values)] *)
Definition make : Values := ∅.

(** [func (v Values) Set(key, value string)]: [v[key] = []string{value}] *)
Definition Values_Set (v : Values) (key value : string) : Values :=
  <[key := [value]]> v.

(** [len(v)] *)
Definition len (v : Values) : nat := size v.

(** The inner loop of [Encode] for one key: each value is written as
    [key=value], with an ampersand first when the buffer is not empty. *)
Fixpoint Encode_values (buf keyEscaped : string) (vs : list string) : string :=
  match vs with
  | [] => buf
  | v :: vs' =>
      let buf := if (0 <? String.length buf)%nat then buf +:+ "&" else buf in
      let buf := buf +:+ keyEscaped in
      let buf := buf +:+ "=" in
      let buf := buf +:+ QueryEscape v in
      Encode_values buf keyEscaped vs'
  end.

(** The outer loop of [Encode], over the sorted keys. *)
Fixpoint Encode_keys (v : Values) (buf : string) (keys : list string) : string :=
  match keys with
  | [] => buf
  | k :: keys' =>
      let vs := default [] (v !! k) in
      let keyEscaped := QueryEscape k in
      Encode_keys v (Encode_values buf keyEscaped vs) keys'
  end.

(** What [Encode] writes for the keys in the order given, as a list:
    one [key=value] for every value of every key, both escaped. *)
Definition Encode_parts (v : Values) (keys : list string) : list string :=
  keys ≫= λ k, (λ x, QueryEscape k +:+ "=" +:+ QueryEscape x) <$> default [] (v !! k).

(** [func (v Values) Encode() string]: the keys are collected by a
    [range] over the map, sorted with [sort.Strings] (byte-wise
    lexicographic order), and written in that order. *)
Definition Encode (o : MapOrder) (v : Values) : string :=
  let keys := (range o v).*1 in
  let keys := merge_sort String.le keys in
  Encode_keys v "" keys.

End url.

(** ** Package [fmt] *)

Module fmt.
(** [fmt.Sprintf("%v", b)] for a boolean. *)
Definition Sprintf_v (b : bool) : string := if b then "true" else "false".
End fmt.

(** ** Errors

    Go's [error] values, as far as [Do] tells them apart: the type
    errors of the JSON decoder, and the errors of everything else (the
    client, the transport, [checkResponse], a body that cannot be read
    or is not JSON), which [Do] hands on unchanged. *)
Inductive error : Type :=
| UnmarshalTypeError (Value : string) (Type_ : string)
| ExternalError (description : string).

(** ** Package [encoding/json] *)

Module json.

#[local] Set Warnings "-register-all".

(** A JSON text, parsed.  A number keeps its literal, as the decoder
    does until it knows the Go type it is stored into. *)
Inductive value : Type :=
| Null
| Bool (b : bool)
| Number (literal : string)
| String_ (s : string)
| Array (elems : list value)
| Object (members : list (string * value)).

(** The word [UnmarshalTypeError.Value] describes a JSON value with. *)
Definition describe (v : value) : string :=
  match v with
  | Null => "null"
  | Bool _ => "bool"
  | Number _ => "number"
  | String_ _ => "string"
  | Array _ => "array"
  | Object _ => "object"
  end.

(** [*json.RawMessage]: a nil pointer, or a pointer to the raw text of
    a value. *)
Abbreviation RawMessagePtr := (option value).

(** Storing a value into a [*json.RawMessage]: "To unmarshal JSON into
    a pointer, Unmarshal first handles the case of the JSON being the
    JSON literal null. In that case, Unmarshal sets the pointer to
    nil."  Any other value is kept as raw text behind a fresh pointer. *)
Definition store_raw (v : value) : RawMessagePtr :=
  match v with
  | Null => None
  | _ => Some v
  end.

(** [var m map[string]*json.RawMessage; json.NewDecoder(r).Decode(&m)]
    where reading [r] gives [body]: an error when the body cannot be
    read or is no JSON text; for [null] the map is left as it is, nil
    and so empty; for an object every member is stored under its key, a
    later member replacing an earlier one with the same key; any other
    value is a type error. *)
Definition Decode_rawmap (body : error + value)
  : error + gmap string RawMessagePtr :=
  match body with
  | inl e => inl e
  | inr Null => inr ∅
  | inr (Object members) =>
      inr (fold_left (λ m kv, <[kv.1 := store_raw kv.2]> m) members ∅)
  | inr v => inl (UnmarshalTypeError (describe v) "map[string]*json.RawMessage")
  end.

(** The elements of a JSON array stored one by one into a slice: the
    error returned is the first one met. *)
Fixpoint Unmarshal_elems {A} (elem : value → error + A) (l : list value)
  : error + list A :=
  match l with
  | [] => inr []
  | v :: l' =>
      match elem v, Unmarshal_elems elem l' with
      | inl e, _ => inl e
      | inr _, inl e => inl e
      | inr a, inr r => inr (a :: r)
      end
  end.

(** [var s []T; json.Unmarshal(raw, &s)], [elem] storing one element
    into a [T] and [ty] being the name of the slice type: [null] leaves
    the nil slice, an array is stored element by element, anything else
    is a type error. *)
Definition Unmarshal_slice {A} (ty : string) (elem : value → error + A)
    (raw : value) : error + list A :=
  match raw with
  | Null => inr []
  | Array elems => Unmarshal_elems elem elems
  | v => inl (UnmarshalTypeError (describe v) ty)
  end.

End json.

(** A call of a Go function from [Do] ends in one of three ways: it
    returns a value and a nil error, it returns an error, or it panics
    (a nil pointer is dereferenced). *)
Inductive outcome (A : Type) : Type :=
| Returned (a : A)
| Failed (e : error)
| Panicked.

Arguments Returned {A} a.
Arguments Failed {A} e.
Arguments Panicked {A}.

(** What [Do] does to the outside world, in order. *)
Inductive event (Request Response : Type) : Type :=
| DumpRequestOut (req : Request)      (* debug: the request is printed *)
| Send (req : Request)                (* [s.client.c.Do(req)] *)
| DumpResponse (res : Response)       (* debug: the response is printed *)
| DecodeBody (res : Response)         (* the body is read and decoded *)
| CloseBody (res : Response).         (* the deferred [res.Body.Close()] *)

Arguments DumpRequestOut {Request Response} req.
Arguments Send {Request Response} req.
Arguments DumpResponse {Request Response} res.
Arguments DecodeBody {Request Response} res.
Arguments CloseBody {Request Response} res.


Definition is_Send {Request Response} (ev : event Request Response) : bool :=
  match ev with
  | Send _ => true
  | _ => false
  end.


(** ** The monad [Do] runs in: an outcome and the events so far *)

Module Run.

Definition M (E A : Type) : Type := outcome A * list E.

Definition ret {E A} (a : A) : M E A := (Returned a, []).

Definition bind {E A B} (m : M E A) (k : A → M E B) : M E B :=
  match m with
  | (Returned a, t) => let '(r, t') := k a in (r, t ++ t')
  | (Failed e, t) => (Failed e, t)
  | (Panicked, t) => (Panicked, t)
  end.

(** [return nil, err] *)
Definition fail {E A} (e : error) : M E A := (Failed e, []).

(** A step that touches nothing outside. *)
Definition silent {E A} (r : outcome A) : M E A := (r, []).

Definition emit {E} (ev : E) : M E unit := (Returned tt, [ev]).

(** [x, err := f(...); if err != nil { return nil, err }] *)
Definition try {E A} (x : error + A) : M E A :=
  match x with
  | inl e => fail e
  | inr a => ret a
  end.

(** [defer f()]: the event happens when the rest of the function is
    over, however it ends. *)
Definition defer {E A} (ev : E) (rest : M E A) : M E A :=
  let '(r, t) := rest in (r, t ++ [ev]).

End Run.

Global Instance M_ret {E} : MRet (Run.M E) := λ A, Run.ret.
Global Instance M_bind {E} : MBind (Run.M E) := λ A B k m, Run.bind m k.

(** ** suggest.go: the types *)

(** [type suggestionOption struct] *)
Record suggestionOption (float32 : Type) := {
  option_Text : string;
  Score : float32;
  Freq : Z
}.

(** [type Suggestion struct] *)
Record Suggestion (float32 : Type) := {
  Text : string;
  Offset : Z;
  Length : Z;
  Options : list (suggestionOption float32)
}.

Arguments option_Text {float32} _.
Arguments Score {float32} _.
Arguments Freq {float32} _.
Arguments Text {float32} _.
Arguments Offset {float32} _.
Arguments Length {float32} _.
Arguments Options {float32} _.

(** The [Suggester] interface, as far as [Do] uses it. *)
Record Suggester := {
  Name : string;
  Source : bool → json.value
}.

(** What [Do] relies on and suggest.go does not define: the type
    [float32]; the request and response types; [cleanPathString] and
    [checkResponse] of this package; [Request.SetBodyJson]; what
    reading the body of a response gives; and how [encoding/json]
    stores one JSON value into a [Suggestion]. *)
Class Collaborators := {
  float32 : Type;
  Request : Type;
  Response : Type;
  cleanPathString : string → string;
  SetBodyJson : Request → gmap string json.value → Request;
  checkResponse : Response → option error;
  Body : Response → error + json.value;
  Unmarshal_Suggestion : json.value → error + Suggestion float32
}.

(** [type SuggestResult map[string][]Suggestion] *)
Abbreviation SuggestResult := (gmap string (list (Suggestion float32))).

Section SuggestService.

Context `{!Collaborators}.

(** [*Client], as far as [Do] uses it: [NewRequest(method, url)], and
    the [Do] of its HTTP client [c]. *)
Record Client := {
  NewRequest : string → string → error + Request;
  c_Do : Request → error + Response
}.

(** [type SuggestService struct] *)
Record SuggestService := {
  client : Client;
  pretty : bool;
  debug : bool;
  routing : string;
  preference : string;
  indices : list string;
  types : list string;
  suggesters : list Suggester
}.

Definition NewSuggestService (client : Client) : SuggestService :=
  {| client := client; pretty := false; debug := false; routing := ""; preference := "";
     indices := []; types := []; suggesters := [] |}.

Definition Index (s : SuggestService) (index : string) : SuggestService :=
  {| client := client s; pretty := pretty s; debug := debug s;
     routing := routing s; preference := preference s;
     indices := indices s ++ [index];
     types := types s; suggesters := suggesters s |}.

Definition Indices (s : SuggestService) (indices' : list string) : SuggestService :=
  {| client := client s; pretty := pretty s; debug := debug s;
     routing := routing s; preference := preference s;
     indices := indices s ++ indices';
     types := types s; suggesters := suggesters s |}.

Definition Type_ (s : SuggestService) (typ : string) : SuggestService :=
  {| client := client s; pretty := pretty s; debug := debug s;
     routing := routing s; preference := preference s;
     indices := indices s;
     types := types s ++ [typ]; suggesters := suggesters s |}.

Definition Types (s : SuggestService) (types' : list string) : SuggestService :=
  {| client := client s; pretty := pretty s; debug := debug s;
     routing := routing s; preference := preference s;
     indices := indices s;
     types := types s ++ types'; suggesters := suggesters s |}.

Definition Pretty (s : SuggestService) (pretty' : bool) : SuggestService :=
  {| client := client s; pretty := pretty'; debug := debug s;
     routing := routing s; preference := preference s;
     indices := indices s; types := types s; suggesters := suggesters s |}.

Definition Debug (s : SuggestService) (debug' : bool) : SuggestService :=
  {| client := client s; pretty := pretty s; debug := debug';
     routing := routing s; preference := preference s;
     indices := indices s; types := types s; suggesters := suggesters s |}.

Definition Routing (s : SuggestService) (routing' : string) : SuggestService :=
  {| client := client s; pretty := pretty s; debug := debug s;
     routing := routing'; preference := preference s;
     indices := indices s; types := types s; suggesters := suggesters s |}.

Definition Preference (s : SuggestService) (preference' : string) : SuggestService :=
  {| client := client s; pretty := pretty s; debug := debug s;
     routing := routing s; preference := preference';
     indices := indices s; types := types s; suggesters := suggesters s |}.

Definition Suggester_ (s : SuggestService) (suggester : Suggester) : SuggestService :=
  {| client := client s; pretty := pretty s; debug := debug s;
     routing := routing s; preference := preference s;
     indices := indices s; types := types s;
     suggesters := suggesters s ++ [suggester] |}.

(** *** Chains of configuration calls

    [s.Index("a").Routing("r")...]: the calls of a chain, in the order
    they are made. *)
Inductive call : Type :=
| CallIndex (index : string)
| CallIndices (indices : list string)
| CallType (typ : string)
| CallTypes (types : list string)
| CallPretty (pretty : bool)
| CallDebug (debug : bool)
| CallRouting (routing : string)
| CallPreference (preference : string)
| CallSuggester (suggester : Suggester).

Definition apply_call (s : SuggestService) (c : call) : SuggestService :=
  match c with
  | CallIndex index => Index s index
  | CallIndices indices => Indices s indices
  | CallType typ => Type_ s typ
  | CallTypes types => Types s types
  | CallPretty pretty => Pretty s pretty
  | CallDebug debug => Debug s debug
  | CallRouting routing => Routing s routing
  | CallPreference preference => Preference s preference
  | CallSuggester suggester => Suggester_ s suggester
  end.

Definition chain (s : SuggestService) (calls : list call) : SuggestService :=
  fold_left apply_call calls s.

(** What the calls of a chain were given, by field. *)
Definition given_indices (calls : list call) : list string :=
  calls ≫= λ c, match c with
                | CallIndex index => [index]
                | CallIndices indices => indices
                | _ => []
                end.

Definition given_types (calls : list call) : list string :=
  calls ≫= λ c, match c with
                | CallType typ => [typ]
                | CallTypes types => types
                | _ => []
                end.

Definition given_suggesters (calls : list call) : list Suggester :=
  omap (λ c, match c with CallSuggester sg => Some sg | _ => None end) calls.

Definition given_pretty (calls : list call) : list bool :=
  omap (λ c, match c with CallPretty b => Some b | _ => None end) calls.

Definition given_debug (calls : list call) : list bool :=
  omap (λ c, match c with CallDebug b => Some b | _ => None end) calls.

Definition given_routing (calls : list call) : list string :=
  omap (λ c, match c with CallRouting r => Some r | _ => None end) calls.

Definition given_preference (calls : list call) : list string :=
  omap (λ c, match c with CallPreference p => Some p | _ => None end) calls.

(** *** [Do]: the URL (lines 84-117) *)

(** The path: [urls] after the line [urls += "/_suggest"]. *)
Definition Do_path (s : SuggestService) : string :=
  let urls := "/" in
  let indexPart :=
    fold_left (λ indexPart index, indexPart ++ [cleanPathString index])
      (indices s) [] in
  let urls := urls +:+ strings.Join indexPart "," in
  let typesPart :=
    fold_left (λ typesPart typ, typesPart ++ [cleanPathString typ])
      (types s) [] in
  let urls := urls +:+ strings.Join typesPart "," in
  urls +:+ "/_suggest".

(** The parameters: [params] when the three [if]s are through. *)
Definition Do_params (s : SuggestService) : url.Values :=
  let params := url.make in
  let params :=
    if pretty s then url.Values_Set params "pretty" (fmt.Sprintf_v (pretty s))
    else params in
  let params :=
    if decide (routing s ≠ "") then url.Values_Set params "routing" (routing s)
    else params in
  let params :=
    if decide (preference s ≠ "")
    then url.Values_Set params "preference" (preference s)
    else params in
  params.

(** [urls] as it is handed to [NewRequest]; the test is
    [len(params) > 0]. *)
Definition Do_urls (o : MapOrder) (s : SuggestService) : string :=
  let urls := Do_path s in
  let params := Do_params s in
  if decide (0 < url.len params)%nat then urls +:+ "?" +:+ url.Encode o params
  else urls.

(** The query string as the specification words it (4.1, step 2):
    [preference=<value>] when the preference is not empty,
    [pretty=true] when the flag is set, [routing=<value>] when the
    routing is not empty, the values URL-encoded, in the alphabetical
    order of the keys; a question mark and the parameters joined by
    ampersands, or nothing at all when there is no parameter. *)
Definition query_parameters (s : SuggestService) : list string :=
  (if decide (preference s ≠ "")
   then ["preference=" +:+ url.QueryEscape (preference s)] else [])
  ++ (if pretty s then ["pretty=true"] else [])
  ++ (if decide (routing s ≠ "")
      then ["routing=" +:+ url.QueryEscape (routing s)] else []).

Definition query_string (s : SuggestService) : string :=
  match query_parameters s with
  | [] => ""
  | parameters => "?" +:+ strings.Join parameters "&"
  end.

(** *** [Do]: the body (lines 126-131) *)

Definition Do_body (s : SuggestService) : gmap string json.value :=
  fold_left (λ body s, <[Name s := Source s false]> body) (suggesters s) ∅.

(** *** [Do]: the response (lines 157-173) *)

(** [var s []Suggestion; json.Unmarshal(raw, &s)] *)
Definition Unmarshal_Suggestions (raw : json.value)
  : error + list (Suggestion float32) :=
  json.Unmarshal_slice "[]elastic.Suggestion" Unmarshal_Suggestion raw.

(** The loop over [suggestions], in the order the entries are met;
    [ret] is the result so far. *)
Fixpoint Do_range (suggestions : list (string * json.RawMessagePtr))
    (ret : SuggestResult) : outcome SuggestResult :=
  match suggestions with
  | [] => Returned ret
  | (name, result) :: rest =>
      if decide (name ≠ "_shards") then
        match result with
        | None => Panicked                     (* [*result], [result] nil *)
        | Some raw =>
            match Unmarshal_Suggestions raw with
            | inl err => Failed err
            | inr s => Do_range rest (<[name := s]> ret)
            end
        end
      else Do_range rest ret
  end.

(** Lines 157-173: the body is decoded into raw messages, and these
    one by one. *)
Definition Do_decode (o : MapOrder) (body : error + json.value)
  : outcome SuggestResult :=
  match json.Decode_rawmap body with
  | inl err => Failed err
  | inr suggestions => Do_range (range o suggestions) ∅
  end.

(** *** [Do] *)

Definition Do (o : MapOrder) (s : SuggestService)
  : Run.M (event Request Response) SuggestResult :=
  let urls := Do_urls o s in
  req ← Run.try (NewRequest (client s) "POST" urls);
  let body := Do_body s in
  let req := SetBodyJson req body in
  (if debug s then Run.emit (DumpRequestOut req) else mret tt);;
  Run.emit (Send req);;
  res ← Run.try (c_Do (client s) req);
  match checkResponse res with
  | Some err => Run.fail err
  | None =>
      Run.defer (CloseBody res)
        ((if debug s then Run.emit (DumpResponse res) else mret tt);;
         Run.emit (DecodeBody res);;
         Run.silent (Do_decode o (Body res)))
  end.

(** The events of [Do] up to the answer of the transport, and from the
    accepted answer on. *)
Definition events_sending (s : SuggestService) (req : Request)
  : list (event Request Response) :=
  (if debug s then [DumpRequestOut req] else []) ++ [Send req].

Definition events_decoding (s : SuggestService) (res : Response)
  : list (event Request Response) :=
  (if debug s then [DumpResponse res] else []) ++ [DecodeBody res; CloseBody res].

End SuggestService.

(** ** Collaborators to run [Do] against

    A loop-back client whose transport answers every request with a
    canned response, or fails, and decoders for the documented wire
    shape.  They make the statements below evaluable on concrete
    requests and responses. *)

Module Reference.

(** Modelled from the spec: [cleanPathString] is missing from
    suggest.go; the spec has each index and type name "path-escaped
    (characters unsafe in a URL path segment must be percent-encoded or
    rejected)".  Here every byte other than a letter, a digit, [-],
    [_], [.] and [~] is percent-encoded. *)
Fixpoint cleanPathString (input : string) : string :=
  match input with
  | EmptyString => EmptyString
  | String c rest =>
      if url.shouldEscape c then
        let n := N_of_ascii c in
        String "%" (String (url.hexdigit (N.shiftr n 4))
                      (String (url.hexdigit (N.land n 15)) (cleanPathString rest)))
      else String c (cleanPathString rest)
  end.

(** A request as the transport sees it. *)
Record Req := {
  Method : string;
  URL : string;
  BodyJson : option (gmap string json.value)
}.

Record Res := {
  StatusCode : Z;
  Content : error + json.value
}.

Definition SetBodyJson (req : Req) (body : gmap string json.value) : Req :=
  {| Method := Method req; URL := URL req; BodyJson := Some body |}.

(** Modelled from the spec: [checkResponse] is missing from suggest.go;
    the spec has a "non-2xx status" classified as a failure. *)
Definition checkResponse (res : Res) : option error :=
  if decide (200 ≤ StatusCode res ≤ 299)%Z then None
  else Some (ExternalError "elastic: unexpected status").

(** Decimal digits, most significant first. *)
Fixpoint digits (acc : Z) (s : string) : option Z :=
  match s with
  | EmptyString => Some acc
  | String c s' =>
      match Ascii.is_nat c with
      | Some d => digits (10 * acc + Z.of_nat d) s'
      | None => None
      end
  end.

(** [strconv.ParseInt(literal, 10, 64)] on the literal of a JSON
    number: an optional minus sign and digits only, within 64 bits. *)
Definition ParseInt (literal : string) : option Z :=
  let r := match literal with
           | EmptyString => None
           | String "-" (String c s') => Z.opp <$> digits 0 (String c s')
           | String c s' => digits 0 (String c s')
           end in
  r ≫= λ n, if decide (- 2 ^ 63 ≤ n < 2 ^ 63)%Z then Some n else None.

(** A [float32] is kept as the literal it was read from. *)
Definition float32 : Type := string.

Definition on_value {A B} (f : A → B) (x : error + A) : error + B :=
  match x with
  | inl e => inl e
  | inr a => inr (f a)
  end.

Definition Unmarshal_string (old : string) (v : json.value) : error + string :=
  match v with
  | json.Null => inr old
  | json.String_ s => inr s
  | _ => inl (UnmarshalTypeError (json.describe v) "string")
  end.

Definition Unmarshal_int (old : Z) (v : json.value) : error + Z :=
  match v with
  | json.Null => inr old
  | json.Number literal =>
      match ParseInt literal with
      | Some n => inr n
      | None => inl (UnmarshalTypeError ("number " +:+ literal) "int")
      end
  | _ => inl (UnmarshalTypeError (json.describe v) "int")
  end.

Definition Unmarshal_float32 (old : float32) (v : json.value) : error + float32 :=
  match v with
  | json.Null => inr old
  | json.Number literal => inr literal
  | _ => inl (UnmarshalTypeError (json.describe v) "float32")
  end.

(** The members of an object stored into a struct in their order; an
    unknown key is skipped; the first error is the one reported. *)
Fixpoint Unmarshal_members {A} (field : A → string → json.value → error + A)
    (x : A) (members : list (string * json.value)) : error + A :=
  match members with
  | [] => inr x
  | (k, v) :: rest =>
      match field x k v with
      | inl e => inl e
      | inr x' => Unmarshal_members field x' rest
      end
  end.

Definition Unmarshal_struct {A} (ty : string) (zero : A)
    (field : A → string → json.value → error + A) (v : json.value) : error + A :=
  match v with
  | json.Null => inr zero
  | json.Object members => Unmarshal_members field zero members
  | _ => inl (UnmarshalTypeError (json.describe v) ty)
  end.

Definition suggestionOption_field (x : suggestionOption float32) (k : string)
    (v : json.value) : error + suggestionOption float32 :=
  if decide (k = "text") then
    on_value (λ t, {| option_Text := t; Score := Score x; Freq := Freq x |})
      (Unmarshal_string (option_Text x) v)
  else if decide (k = "score") then
    on_value (λ f, {| option_Text := option_Text x; Score := f; Freq := Freq x |})
      (Unmarshal_float32 (Score x) v)
  else if decide (k = "freq") then
    on_value (λ n, {| option_Text := option_Text x; Score := Score x; Freq := n |})
      (Unmarshal_int (Freq x) v)
  else inr x.

Definition Unmarshal_suggestionOption : json.value → error + suggestionOption float32 :=
  Unmarshal_struct "elastic.suggestionOption"
    {| option_Text := ""; Score := "0"; Freq := 0 |} suggestionOption_field.

Definition Suggestion_field (x : Suggestion float32) (k : string)
    (v : json.value) : error + Suggestion float32 :=
  if decide (k = "text") then
    on_value (λ t, {| Text := t; Offset := Offset x; Length := Length x; Options := Options x |})
      (Unmarshal_string (Text x) v)
  else if decide (k = "offset") then
    on_value (λ n, {| Text := Text x; Offset := n; Length := Length x; Options := Options x |})
      (Unmarshal_int (Offset x) v)
  else if decide (k = "length") then
    on_value (λ n, {| Text := Text x; Offset := Offset x; Length := n; Options := Options x |})
      (Unmarshal_int (Length x) v)
  else if decide (k = "options") then
    on_value (λ l, {| Text := Text x; Offset := Offset x; Length := Length x; Options := l |})
      (json.Unmarshal_slice "[]elastic.suggestionOption" Unmarshal_suggestionOption v)
  else inr x.

Definition Unmarshal_Suggestion : json.value → error + Suggestion float32 :=
  Unmarshal_struct "elastic.Suggestion"
    {| Text := ""; Offset := 0; Length := 0; Options := [] |} Suggestion_field.

Definition collaborators : Collaborators :=
  Build_Collaborators float32 Req Res cleanPathString SetBodyJson
    checkResponse Content Unmarshal_Suggestion.

(** The client: every request can be built, and the transport answers
    each with [answer]. *)
Definition loopback (answer : error + Res) : Client (H := collaborators) :=
  @Build_Client collaborators
    (λ method urls, inr {| Method := method; URL := urls; BodyJson := None |})
    (λ _, answer).

(** A transport that cannot connect, and one that answers with a status
    code and a JSON body. *)
Definition down : Client (H := collaborators) :=
  loopback (inl (ExternalError "dial tcp: connection refused")).

Definition answers (code : Z) (v : json.value) : Client (H := collaborators) :=
  loopback (inr {| StatusCode := code; Content := inr v |}).

(** The request [NewRequest] makes for a URL, and with a body set. *)
Definition post (urls : string) (body : gmap string json.value) : Req :=
  {| Method := "POST"; URL := urls; BodyJson := Some body |}.

(** A response of the documented shape. *)
Definition response_members : list (string * json.value) :=
  [("_shards", json.Object [("total", json.Number "5");
                            ("successful", json.Number "5");
                            ("failed", json.Number "0")]);
   ("my-suggest",
    json.Array
      [json.Object
         [("text", json.String_ "tring"); ("offset", json.Number "0");
          ("length", json.Number "5");
          ("options",
           json.Array
             [json.Object [("text", json.String_ "trying");
                           ("score", json.Number "0.8");
                           ("freq", json.Number "12")]])]])].

(** Two suggesters with the same name. *)
Definition A : Suggester := {| Name := "s"; Source := λ _, json.Number "1" |}.
Definition A' : Suggester := {| Name := "s"; Source := λ _, json.Number "2" |}.

End Reference.

(** * Properties *)

(** ** Strings *)

Lemma app_cons (a : ascii) (s1 s2 : string) :
  String a s1 +:+ s2 = String a (s1 +:+ s2).
Proof. reflexivity. Qed.

Lemma string_app_assoc (s1 s2 s3 : string) :
  (s1 +:+ s2) +:+ s3 = s1 +:+ (s2 +:+ s3).
Proof.
  induction s1 as [|a s1 IH]; [reflexivity|].
  rewrite !app_cons. by rewrite IH.
Qed.

Lemma string_app_nil_r (s : string) : s +:+ "" = s.
Proof.
  induction s as [|a s IH]; [reflexivity|].
  rewrite app_cons. by rewrite IH.
Qed.

Lemma string_length_app (s1 s2 : string) :
  String.length (s1 +:+ s2) = String.length s1 + String.length s2.
Proof.
  induction s1 as [|a s1 IH]; [reflexivity|].
  rewrite app_cons. simpl. by rewrite IH.
Qed.

Lemma ContainsByte_app (s1 s2 : string) (c : ascii) :
  strings.ContainsByte (s1 +:+ s2) c
  = strings.ContainsByte s1 c || strings.ContainsByte s2 c.
Proof.
  induction s1 as [|a s1 IH]; [reflexivity|].
  rewrite app_cons. simpl. destruct (Ascii.eqb a c); [reflexivity|apply IH].
Qed.

Lemma ContainsByte_Join (elems : list string) (sep : string) (c : ascii) :
  Forall (λ x, strings.ContainsByte x c = false) elems →
  strings.ContainsByte sep c = false →
  strings.ContainsByte (strings.Join elems sep) c = false.
Proof.
  intros Hall Hsep. induction Hall as [|x l Hx Hl IH]; [reflexivity|].
  destruct l as [|y l]; [exact Hx|].
  change (strings.Join (x :: y :: l) sep)
    with (x +:+ sep +:+ strings.Join (y :: l) sep).
  rewrite !ContainsByte_app, Hx, Hsep. exact IH.
Qed.

Lemma filter_none {A} (P : A → Prop) `{!∀ x, Decision (P x)} (l : list A) :
  (∀ x, x ∈ l → ¬ P x) → filter P l = [].
Proof.
  induction l as [|x l IH]; intros Hnone; [reflexivity|].
  rewrite filter_cons_False by (apply Hnone; left).
  apply IH. intros y Hy. apply Hnone. by right.
Qed.

(** The Go loop [for _, x := range xs { part = append(part, f(x)) }]
    is a map. *)
Lemma fold_append_map {A B} (f : A → B) (xs : list A) (part : list B) :
  fold_left (λ part x, part ++ [f x]) xs part = part ++ (f <$> xs).
Proof.
  revert part. induction xs as [|x xs IH]; intros part; simpl.
  - by rewrite app_nil_r.
  - rewrite IH. by rewrite <- app_assoc.
Qed.

(** ** A Go map filled by a loop of assignments [m[key(x)] = val(x)] *)

Section Assignments.

Context {A V : Type} (key : A → string) (val : A → V).

Lemma assignments_snoc (xs : list A) (x : A) (m : gmap string V) :
  fold_left (λ m x, <[key x := val x]> m) (xs ++ [x]) m
  = <[key x := val x]> (fold_left (λ m x, <[key x := val x]> m) xs m).
Proof. by rewrite fold_left_app. Qed.

(** Under a key stands the value of the last assignment to it. *)
Lemma assignments_lookup (xs : list A) (k : string) :
  fold_left (λ m x, <[key x := val x]> m) xs (∅ : gmap string V) !! k
  = val <$> last (filter (λ x, key x = k) xs).
Proof.
  induction xs as [|x xs IH] using rev_ind; [reflexivity|].
  rewrite assignments_snoc, filter_app.
  destruct (decide (key x = k)) as [Heq|Hne].
  - rewrite filter_cons_True, filter_nil by done.
    rewrite Heq, lookup_insert_eq. by rewrite last_snoc.
  - rewrite lookup_insert_ne, filter_cons_False by done.
    by rewrite filter_nil, app_nil_r.
Qed.

(** The keys are the keys assigned to. *)
Lemma assignments_dom (xs : list A) :
  dom (fold_left (λ m x, <[key x := val x]> m) xs (∅ : gmap string V))
  =@{gset string} list_to_set (key <$> xs).
Proof.
  induction xs as [|x xs IH] using rev_ind.
  - simpl. by rewrite dom_empty_L.
  - rewrite assignments_snoc, fmap_app, list_to_set_app_L. simpl.
    rewrite dom_insert_L, IH, (right_id_L ∅ (∪)). apply (comm_L (∪)).
Qed.

End Assignments.

(** ** [url.Values.Encode] does not depend on the iteration order *)

Lemma sorted_keys_order_irrelevant (o : MapOrder) (v : url.Values) :
  merge_sort String.le (range o v).*1
  = merge_sort String.le (map_to_list v).*1.
Proof.
  apply (Sorted_unique String.le).
  - apply Sorted_merge_sort, _.
  - apply Sorted_merge_sort, _.
  - rewrite !merge_sort_Permutation. by rewrite (range_perm o).
Qed.

Lemma Encode_order_irrelevant (o o' : MapOrder) (v : url.Values) :
  url.Encode o v = url.Encode o' v.
Proof.
  unfold url.Encode. cbv zeta.
  by rewrite (sorted_keys_order_irrelevant o), (sorted_keys_order_irrelevant o').
Qed.

(** ** [url.Values.Encode] joins its parts with ampersands *)

Lemma Encode_part_nonempty (k x : string) :
  (0 <? String.length (k +:+ "=" +:+ url.QueryEscape x)) = true.
Proof.
  rewrite string_length_app. apply Nat.ltb_lt. simpl. lia.
Qed.

(** One step of the buffer: an ampersand unless it is empty, then the
    part. *)
Lemma Encode_values_fold (buf k : string) (vs : list string) :
  url.Encode_values buf k vs
  = fold_left (λ b part, (if 0 <? String.length b then b +:+ "&" else b) +:+ part)
      ((λ x, k +:+ "=" +:+ url.QueryEscape x) <$> vs) buf.
Proof.
  revert buf. induction vs as [|x vs IH]; intros buf; [reflexivity|].
  simpl. rewrite IH. f_equal. by rewrite !string_app_assoc.
Qed.

Lemma Encode_keys_fold (v : url.Values) (buf : string) (keys : list string) :
  url.Encode_keys v buf keys
  = fold_left (λ b part, (if 0 <? String.length b then b +:+ "&" else b) +:+ part)
      (url.Encode_parts v keys) buf.
Proof.
  revert buf. induction keys as [|k keys IH]; intros buf; [reflexivity|].
  simpl. rewrite IH, Encode_values_fold.
  unfold url.Encode_parts. simpl. by rewrite fold_left_app.
Qed.

Lemma fold_ampersand_Join (parts : list string) (buf : string) :
  Forall (λ part, (0 <? String.length part) = true) parts →
  fold_left (λ b part, (if 0 <? String.length b then b +:+ "&" else b) +:+ part)
    parts buf
  = if 0 <? String.length buf
    then strings.Join (buf :: parts) "&"
    else strings.Join parts "&".
Proof.
  intros Hall. revert buf.
  induction Hall as [|part parts Hpart _ IH]; intros buf.
  - simpl. destruct buf; reflexivity.
  - simpl fold_left. rewrite IH.
    destruct (0 <? String.length buf) eqn:Hbuf.
    + replace (0 <? String.length ((buf +:+ "&") +:+ part)) with true.
      2:{ symmetry. apply Nat.ltb_lt. rewrite !string_length_app.
          apply Nat.ltb_lt in Hbuf. lia. }
      change (strings.Join (buf :: part :: parts) "&")
        with (buf +:+ "&" +:+ strings.Join (part :: parts) "&").
      destruct parts as [|part' parts].
      * simpl. by rewrite string_app_assoc.
      * change (strings.Join (((buf +:+ "&") +:+ part) :: part' :: parts) "&")
          with (((buf +:+ "&") +:+ part) +:+ "&" +:+ strings.Join (part' :: parts) "&").
        change (strings.Join (part :: part' :: parts) "&")
          with (part +:+ "&" +:+ strings.Join (part' :: parts) "&").
        by rewrite !string_app_assoc.
    + destruct buf; [|discriminate].
      change ("" +:+ part) with part. by rewrite Hpart.
Qed.

Lemma Encode_parts_nonempty (v : url.Values) (keys : list string) :
  Forall (λ part, (0 <? String.length part) = true) (url.Encode_parts v keys).
Proof.
  unfold url.Encode_parts. apply list.Forall_forall. intros part Hin.
  apply list_elem_of_bind in Hin as (k & Hin & _).
  apply list_elem_of_fmap in Hin as (x & -> & _).
  apply Encode_part_nonempty.
Qed.

(** [Encode] is the parts for the sorted keys, joined by ampersands. *)
Lemma Encode_Join (o : MapOrder) (v : url.Values) :
  url.Encode o v
  = strings.Join
      (url.Encode_parts v (merge_sort String.le (map_to_list v).*1)) "&".
Proof.
  unfold url.Encode. cbv zeta.
  rewrite sorted_keys_order_irrelevant, Encode_keys_fold.
  by rewrite fold_ampersand_Join by apply Encode_parts_nonempty.
Qed.

Section Properties.

Context `{!Collaborators}.

Implicit Types (s : SuggestService) (o : MapOrder).

(** ** The URL *)

Lemma Do_path_eq s :
  Do_path s
  = "/" +:+ strings.Join (cleanPathString <$> indices s) ","
        +:+ strings.Join (cleanPathString <$> types s) "," +:+ "/_suggest".
Proof.
  unfold Do_path. cbv zeta. rewrite !fold_append_map. simpl app.
  by rewrite !string_app_assoc.
Qed.

(** The parts [Encode] writes for [params] are the parameters of the
    specification, in the same order. *)
Lemma Do_params_parts s :
  url.Encode_parts (Do_params s)
    (merge_sort String.le (map_to_list (Do_params s)).*1)
  = query_parameters s.
Proof.
  unfold Do_params, query_parameters, url.Values_Set, url.make, fmt.Sprintf_v.
  cbv zeta.
  generalize (routing s) as r, (preference s) as p. intros r p.
  destruct (pretty s), (decide (r ≠ "")), (decide (p ≠ ""));
    vm_compute; reflexivity.
Qed.

Lemma Do_params_len s :
  (0 < url.len (Do_params s))%nat ↔ query_parameters s ≠ [].
Proof.
  unfold Do_params, query_parameters, url.Values_Set, url.make, url.len.
  cbv zeta.
  generalize (routing s) as r, (preference s) as p. intros r p.
  destruct (pretty s), (decide (r ≠ "")), (decide (p ≠ ""));
    (split; [intros Hlen; try discriminate; vm_compute in Hlen; lia
            |intros Hne; try (vm_compute; lia); by destruct Hne]).
Qed.

(** [urls] is the path followed by the query string of the
    specification, whatever the iteration order. *)
Lemma Do_urls_query o s : Do_urls o s = Do_path s +:+ query_string s.
Proof.
  unfold Do_urls, query_string. cbv zeta.
  rewrite Encode_Join, Do_params_parts.
  destruct (decide (0 < url.len (Do_params s))%nat) as [Hlen|Hlen].
  - apply Do_params_len in Hlen.
    destruct (query_parameters s); [done|reflexivity].
  - rewrite Do_params_len in Hlen.
    destruct (query_parameters s) as [|parameter parameters].
    + by rewrite string_app_nil_r.
    + destruct Hlen. discriminate.
Qed.

(** Scalar setters leave the lists alone, list setters append. *)
Lemma builder_lists (c : Client) (I T : list string) :
  indices (Types (Indices (NewSuggestService c) I) T) = I
  ∧ types (Types (Indices (NewSuggestService c) I) T) = T.
Proof. split; reflexivity. Qed.

(** C1: for every list of index names I and of type names T configured
    on the builder, the path built by [Do] is "/", the path-escaped
    index names joined by ",", the path-escaped type names joined by
    ",", and "/_suggest", nothing standing between the two groups; the
    URL handed to the client is this path followed by the query string.
    With index names idx1, idx2 and no type the path is
    /idx1,idx2/_suggest; with no index and the type typ1 it is
    /typ1/_suggest (for names the escaping leaves as they are). *)
Theorem C1_path_of_indices_and_types (c : Client) (I T : list string) :
  (∀ s, Do_path s
        = "/" +:+ strings.Join (cleanPathString <$> indices s) ","
              +:+ strings.Join (cleanPathString <$> types s) ","
              +:+ "/_suggest")
  ∧ Do_path (Types (Indices (NewSuggestService c) I) T)
    = "/" +:+ strings.Join (cleanPathString <$> I) ","
          +:+ strings.Join (cleanPathString <$> T) "," +:+ "/_suggest"
  ∧ (∀ o s, Do_urls o s = Do_path s +:+ query_string s)
  ∧ (cleanPathString "idx1" = "idx1" → cleanPathString "idx2" = "idx2" →
     Do_path (Indices (NewSuggestService c) ["idx1"; "idx2"])
     = "/idx1,idx2/_suggest"
     ∧ Do_path (Index (Index (NewSuggestService c) "idx1") "idx2")
       = "/idx1,idx2/_suggest")
  ∧ (cleanPathString "typ1" = "typ1" →
     Do_path (Type_ (NewSuggestService c) "typ1") = "/typ1/_suggest"
     ∧ Do_path (Types (NewSuggestService c) ["typ1"]) = "/typ1/_suggest").
Proof.
  split_and!.
  - apply Do_path_eq.
  - rewrite Do_path_eq. by destruct (builder_lists c I T) as [-> ->].
  - apply Do_urls_query.
  - intros H1 H2. rewrite !Do_path_eq. simpl. by rewrite H1, H2.
  - intros H1. rewrite !Do_path_eq. simpl. by rewrite H1.
Qed.

(** C9: with no index and no type configured the path is //_suggest:
    nothing stands between the leading slash and /_suggest. *)
Theorem C9_empty_lists_double_slash s :
  indices s = [] → types s = [] →
  Do_path s = "//_suggest"
  ∧ ∀ o, Do_urls o s = "//_suggest" +:+ query_string s.
Proof.
  intros Hi Ht.
  assert (Do_path s = "//_suggest") as Hpath.
  { rewrite Do_path_eq, Hi, Ht. reflexivity. }
  split; [exact Hpath|]. intros o. by rewrite Do_urls_query, Hpath.
Qed.

(** ** The query string *)

Lemma Do_params_lookup s :
  Do_params s !! "pretty" = (if pretty s then Some ["true"] else None)
  ∧ Do_params s !! "routing"
    = (if decide (routing s ≠ "") then Some [routing s] else None)
  ∧ Do_params s !! "preference"
    = (if decide (preference s ≠ "") then Some [preference s] else None)
  ∧ ∀ k, k ≠ "pretty" → k ≠ "routing" → k ≠ "preference" →
         Do_params s !! k = None.
Proof.
  unfold Do_params, url.Values_Set, url.make, fmt.Sprintf_v. cbv zeta.
  destruct (pretty s), (decide (routing s ≠ "")), (decide (preference s ≠ ""));
    split_and!; try (intros k ???); by simplify_map_eq.
Qed.

Lemma Do_path_no_question_mark s :
  Forall (λ name, strings.ContainsByte (cleanPathString name) "?" = false)
    (indices s ++ types s) →
  strings.ContainsByte (Do_path s) "?" = false.
Proof.
  intros [Hi Ht]%Forall_app. rewrite Do_path_eq, !ContainsByte_app.
  rewrite !ContainsByte_Join; [reflexivity|..]; try reflexivity.
  - by apply Forall_fmap.
  - by apply Forall_fmap.
Qed.

(** C2: the query string holds exactly the scalar options that are not
    at their default: [pretty] when the flag is true, [routing] when the
    routing is not empty, [preference] when the preference is not
    empty, and no other key.  With pretty false and routing and
    preference empty nothing is appended to the path, so the URL has no
    question mark (the escaped names having none); with only routing r1
    the query string is ?routing=r1. *)
Theorem C2_query_string_of_scalar_options o s :
  (Do_params s !! "pretty" = (if pretty s then Some ["true"] else None)
   ∧ Do_params s !! "routing"
     = (if decide (routing s ≠ "") then Some [routing s] else None)
   ∧ Do_params s !! "preference"
     = (if decide (preference s ≠ "") then Some [preference s] else None)
   ∧ ∀ k, k ≠ "pretty" → k ≠ "routing" → k ≠ "preference" →
          Do_params s !! k = None)
  ∧ Do_urls o s = Do_path s +:+ query_string s
  ∧ (pretty s = false → routing s = "" → preference s = "" →
     Do_urls o s = Do_path s
     ∧ (Forall (λ name, strings.ContainsByte (cleanPathString name) "?" = false)
          (indices s ++ types s) →
        strings.ContainsByte (Do_urls o s) "?" = false))
  ∧ (pretty s = false → routing s = "r1" → preference s = "" →
     query_string s = "?routing=r1"
     ∧ Do_urls o s = Do_path s +:+ "?routing=r1").
Proof.
  split; [apply Do_params_lookup|]. split_and!.
  - apply Do_urls_query.
  - intros Hp Hr Hf.
    assert (Do_urls o s = Do_path s) as Hurls.
    { rewrite Do_urls_query. unfold query_string, query_parameters.
      rewrite Hp, Hr, Hf. simpl. apply string_app_nil_r. }
    split; [exact Hurls|]. rewrite Hurls. apply Do_path_no_question_mark.
  - intros Hp Hr Hf.
    assert (query_string s = "?routing=r1") as Hq.
    { unfold query_string, query_parameters. rewrite Hp, Hr, Hf. reflexivity. }
    split; [exact Hq|]. by rewrite Do_urls_query, Hq.
Qed.

(** Setters of different scalar options commute. *)
Lemma scalar_setters_commute s (b : bool) (r p : string) :
  Routing (Pretty s b) r = Pretty (Routing s r) b
  ∧ Preference (Pretty s b) p = Pretty (Preference s p) b
  ∧ Preference (Routing s r) p = Routing (Preference s p) r.
Proof. split_and!; reflexivity. Qed.

(** C10: with more than one parameter set, the parameters stand in the
    alphabetical order of their keys, preference, pretty, routing,
    whatever the order the setters were called in and whatever the
    order the map is iterated in: the URL of a configuration is one
    string. *)
Theorem C10_parameters_in_key_order o s (r p : string) :
  Do_urls o s = Do_path s +:+ query_string s
  ∧ (∀ o', Do_urls o' s = Do_urls o s)
  ∧ ("preference" ≤ "pretty")%string ∧ ("pretty" ≤ "routing")%string
  ∧ (Routing (Pretty s true) r = Pretty (Routing s r) true
     ∧ Preference (Pretty s true) p = Pretty (Preference s p) true
     ∧ Preference (Routing s r) p = Routing (Preference s p) r)
  ∧ (r ≠ "" → p ≠ "" →
     Do_urls o (Preference (Pretty (Routing s r) true) p)
     = Do_path s +:+ "?preference=" +:+ url.QueryEscape p
                 +:+ "&pretty=true&routing=" +:+ url.QueryEscape r
     ∧ Do_urls o (Routing (Pretty (Preference s p) false) r)
       = Do_path s +:+ "?preference=" +:+ url.QueryEscape p
                   +:+ "&routing=" +:+ url.QueryEscape r
     ∧ Do_urls o (Pretty (Preference (Routing s "") p) true)
       = Do_path s +:+ "?preference=" +:+ url.QueryEscape p +:+ "&pretty=true"
     ∧ Do_urls o (Routing (Pretty (Preference s "") true) r)
       = Do_path s +:+ "?pretty=true&routing=" +:+ url.QueryEscape r).
Proof.
  split; [apply Do_urls_query|].
  split; [intros o'; by rewrite !Do_urls_query|].
  split; [by vm_compute|]. split; [by vm_compute|].
  split; [apply scalar_setters_commute|].
  intros Hr Hp. rewrite !Do_urls_query.
  unfold query_string, query_parameters. simpl.
  destruct (decide (r ≠ "")); [|done]. destruct (decide (p ≠ "")); [|done].
  split_and!; change (Do_path _) with (Do_path s) at 1; f_equal;
    simpl; rewrite ?app_cons, ?string_app_assoc; reflexivity.
Qed.

(** ** The body *)

Lemma Do_body_Suggester s (sg : Suggester) :
  Do_body (Suggester_ s sg) = <[Name sg := Source sg false]> (Do_body s).
Proof. unfold Do_body. simpl. by rewrite fold_left_app. Qed.

Lemma body_lookup (l : list Suggester) (k : string) :
  fold_left (λ (body : gmap string json.value) sg,
               <[Name sg := Source sg false]> body) l ∅ !! k
  = (λ sg, Source sg false) <$> last (filter (λ sg, Name sg = k) l).
Proof. apply (assignments_lookup Name (λ sg, Source sg false)). Qed.

Lemma body_dom (l : list Suggester) :
  dom (fold_left (λ (body : gmap string json.value) sg,
                    <[Name sg := Source sg false]> body) l ∅)
  =@{gset string} list_to_set (Name <$> l).
Proof. apply (assignments_dom Name (λ sg, Source sg false)). Qed.

(** The body only looks at [Name] and at [Source(false)]. *)
Lemma body_flag_false (l l' : list Suggester) (body : gmap string json.value) :
  Forall2 (λ a b, Name a = Name b ∧ Source a false = Source b false) l l' →
  fold_left (λ (body : gmap string json.value) sg,
               <[Name sg := Source sg false]> body) l body
  = fold_left (λ (body : gmap string json.value) sg,
                 <[Name sg := Source sg false]> body) l' body.
Proof.
  intros Hall. revert body.
  induction Hall as [|a b l l' [Hn Hs] _ IH]; intros body; [reflexivity|].
  simpl. by rewrite Hn, Hs, IH.
Qed.

(** ** The run of [Do], case by case *)

Lemma Do_NewRequest_fails o s (err : error) :
  NewRequest (client s) "POST" (Do_urls o s) = inl err →
  Do o s = (Failed err, []).
Proof. intros Hreq. unfold Do. cbv zeta. by rewrite Hreq. Qed.

Lemma Do_transport_fails o s (req : Request) (err : error) :
  NewRequest (client s) "POST" (Do_urls o s) = inr req →
  c_Do (client s) (SetBodyJson req (Do_body s)) = inl err →
  Do o s = (Failed err, events_sending s (SetBodyJson req (Do_body s))).
Proof.
  intros Hreq Hres. unfold Do, events_sending. cbv zeta. rewrite Hreq.
  destruct (debug s); simpl; by rewrite Hres.
Qed.

Lemma Do_check_fails o s (req : Request) (res : Response) (err : error) :
  NewRequest (client s) "POST" (Do_urls o s) = inr req →
  c_Do (client s) (SetBodyJson req (Do_body s)) = inr res →
  checkResponse res = Some err →
  Do o s = (Failed err, events_sending s (SetBodyJson req (Do_body s))).
Proof.
  intros Hreq Hres Hcheck. unfold Do, events_sending. cbv zeta. rewrite Hreq.
  destruct (debug s); simpl; by rewrite Hres; simpl; rewrite Hcheck.
Qed.

Lemma Do_decodes o s (req : Request) (res : Response) :
  NewRequest (client s) "POST" (Do_urls o s) = inr req →
  c_Do (client s) (SetBodyJson req (Do_body s)) = inr res →
  checkResponse res = None →
  Do o s = (Do_decode o (Body res),
            events_sending s (SetBodyJson req (Do_body s))
            ++ events_decoding s res).
Proof.
  intros Hreq Hres Hcheck.
  unfold Do, events_sending, events_decoding. cbv zeta. rewrite Hreq.
  destruct (debug s); simpl; rewrite Hres; simpl; rewrite Hcheck; simpl;
    by destruct (Do_decode o (Body res)).
Qed.

(** The request that is sent carries the body. *)
Lemma Do_sends_body o s (req : Request) :
  NewRequest (client s) "POST" (Do_urls o s) = inr req →
  Send (SetBodyJson req (Do_body s)) ∈ (Do o s).2.
Proof.
  intros Hreq.
  assert (Send (SetBodyJson req (Do_body s))
          ∈ events_sending s (SetBodyJson req (Do_body s))) as Hsent.
  { unfold events_sending. apply elem_of_app. right. left. }
  destruct (c_Do (client s) (SetBodyJson req (Do_body s))) as [err|res] eqn:Hres.
  { by rewrite (Do_transport_fails o s req err). }
  destruct (checkResponse res) as [err|] eqn:Hcheck.
  { by rewrite (Do_check_fails o s req res err). }
  rewrite (Do_decodes o s req res) by done. simpl.
  apply elem_of_app. by left.
Qed.

(** C3: the body is an object whose keys are exactly the names of the
    registered suggesters; the value under a name is [Source(false)] of
    a suggester registered under it (of the last one); [Source] is never
    asked with the flag true, the body being the same whatever it would
    answer; with no suggester the body is the empty object; and this is
    the body set on the request that is sent. *)
Theorem C3_body_of_suggesters o s :
  dom (Do_body s) =@{gset string} list_to_set (Name <$> suggesters s)
  ∧ (∀ k, Do_body s !! k
          = (λ sg, Source sg false)
            <$> last (filter (λ sg, Name sg = k) (suggesters s)))
  ∧ (∀ k v, Do_body s !! k = Some v →
            ∃ sg, sg ∈ suggesters s ∧ Name sg = k ∧ v = Source sg false)
  ∧ (∀ s', Forall2 (λ a b, Name a = Name b ∧ Source a false = Source b false)
             (suggesters s) (suggesters s') →
           Do_body s = Do_body s')
  ∧ (suggesters s = [] → Do_body s = ∅)
  ∧ (∀ req, NewRequest (client s) "POST" (Do_urls o s) = inr req →
            Send (SetBodyJson req (Do_body s)) ∈ (Do o s).2).
Proof.
  split_and!.
  - apply body_dom.
  - intros k. apply body_lookup.
  - intros k v Hk. unfold Do_body in Hk. rewrite body_lookup in Hk.
    apply fmap_Some in Hk as (sg & Hlast & ->).
    apply last_Some_elem_of, list_elem_of_filter in Hlast as [Hname Hin].
    by exists sg.
  - intros s' Hall. by apply body_flag_false.
  - intros Hnil. unfold Do_body. by rewrite Hnil.
  - intros req. apply Do_sends_body.
Qed.

(** C4: of two suggesters registered under the same name the body has
    one entry, the body fragment of the one registered later; after A
    (name s, body 1) and then A' (name s, body 2) the body is
    {"s": 2}. *)
Theorem C4_same_name_last_wins s (A A' : Suggester) :
  Name A = Name A' →
  Do_body (Suggester_ (Suggester_ s A) A')
  = <[Name A' := Source A' false]> (Do_body s)
  ∧ Do_body (Suggester_ (Suggester_ s A) A') !! Name A = Some (Source A' false)
  ∧ (∀ l1 l2 l3, suggesters s = l1 ++ A :: l2 ++ A' :: l3 →
                 Name A' ∉ Name <$> l3 →
                 Do_body s !! Name A = Some (Source A' false))
  ∧ (suggesters s = [] →
     Do_body (Suggester_ (Suggester_ s A) A') = {[Name A' := Source A' false]}
     ∧ size (Do_body (Suggester_ (Suggester_ s A) A')) = 1).
Proof.
  intros Hname.
  assert (Do_body (Suggester_ (Suggester_ s A) A')
          = <[Name A' := Source A' false]> (Do_body s)) as Hbody.
  { rewrite !Do_body_Suggester, Hname. apply insert_insert_eq. }
  split_and!.
  - exact Hbody.
  - rewrite Hbody, Hname. apply lookup_insert_eq.
  - intros l1 l2 l3 Hl Hnot. unfold Do_body. rewrite body_lookup, Hl.
    replace (l1 ++ A :: l2 ++ A' :: l3) with ((l1 ++ A :: l2) ++ A' :: l3)
      by (by rewrite <- app_assoc).
    rewrite filter_app.
    rewrite (filter_cons_True _ A') by done.
    rewrite (filter_none _ l3).
    + by rewrite last_snoc.
    + intros sg Hin Hsg. apply Hnot, list_elem_of_fmap. exists sg.
      split; [congruence|done].
  - intros Hnil.
    assert (Do_body s = ∅) as Hempty by (unfold Do_body; by rewrite Hnil).
    rewrite Hbody, Hempty, insert_empty. split; [reflexivity|].
    apply map_size_singleton.
Qed.

(** ** The response *)

(** An entry of the map is met by the loop, and the loop meets nothing
    else. *)
Lemma elem_of_range {V} o (m : gmap string V) (k : string) (v : V) :
  (k, v) ∈ range o m ↔ m !! k = Some v.
Proof. rewrite (range_perm o). apply elem_of_map_to_list. Qed.

Lemma range_empty {V} o : range o (∅ : gmap string V) = [].
Proof.
  apply Permutation_nil_r. by rewrite (range_perm o), map_to_list_empty.
Qed.

Lemma range_keys {V} o (m : gmap string V) :
  list_to_set (range o m).*1 =@{gset string} dom m.
Proof.
  apply set_eq. intros k.
  rewrite elem_of_list_to_set, elem_of_dom, list_elem_of_fmap. split.
  - intros ([k' v] & -> & Hin). apply elem_of_range in Hin. by exists v.
  - intros [v Hv]. exists (k, v). split; [done|]. by apply elem_of_range.
Qed.

(** The entries under [_shards] might as well not be there. *)
Lemma Do_range_skips_shards (l : list (string * json.RawMessagePtr))
    (ret : SuggestResult) :
  Do_range l ret = Do_range (filter (λ kv, kv.1 ≠ "_shards") l) ret.
Proof.
  revert ret. induction l as [|[name result] l IH]; intros ret; [reflexivity|].
  destruct (decide (name ≠ "_shards")) as [Hname|Hname].
  - rewrite filter_cons_True by done. simpl.
    destruct (decide (name ≠ "_shards")); [|done].
    destruct result as [raw|]; [|reflexivity].
    destruct (Unmarshal_Suggestions raw); [reflexivity|apply IH].
  - rewrite filter_cons_False by done. simpl.
    destruct (decide (name ≠ "_shards")); [done|apply IH].
Qed.

(** The loop returns a result exactly when every entry outside
    [_shards] holds a raw message that decodes. *)
Lemma Do_range_Returned (l : list (string * json.RawMessagePtr))
    (ret : SuggestResult) :
  (∃ r, Do_range l ret = Returned r)
  ↔ ∀ name result, (name, result) ∈ l → name ≠ "_shards" →
      ∃ raw sgs, result = Some raw ∧ Unmarshal_Suggestions raw = inr sgs.
Proof.
  revert ret. induction l as [|[name result] l IH]; intros ret.
  - split; [intros _ ?? Hin; inv Hin|intros _; by eexists].
  - simpl. destruct (decide (name ≠ "_shards")) as [Hname|Hname].
    + destruct result as [raw|].
      * destruct (Unmarshal_Suggestions raw) as [err|sgs] eqn:Hraw.
        -- split; [intros [r Hr]; discriminate|].
           intros Hall.
           destruct (Hall name (Some raw) (list_elem_of_here _ _) Hname)
             as (? & ? & ? & ?). congruence.
        -- rewrite IH. split.
           ++ intros Hall name' result' Hin Hname'.
              apply elem_of_cons in Hin as [Heq|Hin]; [|by apply (Hall name')].
              inv Heq. by exists raw, sgs.
           ++ intros Hall name' result' Hin. apply Hall. by right.
      * split; [intros [r Hr]; discriminate|].
        intros Hall.
        destruct (Hall name None (list_elem_of_here _ _) Hname)
          as (? & ? & ? & ?). discriminate.
    + rewrite IH. split.
      * intros Hall name' result' Hin Hname'.
        apply elem_of_cons in Hin as [Heq|Hin]; [|by apply (Hall name')].
        inv Heq. done.
      * intros Hall name' result' Hin. apply Hall. by right.
Qed.

(** The keys of the result: those it started with, and the names met
    other than [_shards]. *)
Lemma Do_range_dom (l : list (string * json.RawMessagePtr))
    (ret r : SuggestResult) :
  Do_range l ret = Returned r →
  dom r =@{gset string} dom ret ∪ (list_to_set l.*1 ∖ {["_shards"]}).
Proof.
  revert ret. induction l as [|[name result] l IH]; intros ret Hr.
  - inv Hr. apply set_eq. intros k. set_unfold. naive_solver.
  - simpl in Hr. destruct (decide (name ≠ "_shards")) as [Hname|Hname].
    + destruct result as [raw|]; [|discriminate].
      destruct (Unmarshal_Suggestions raw) as [err|sgs]; [discriminate|].
      apply IH in Hr. rewrite Hr, dom_insert_L. simpl.
      apply set_eq. intros k. set_unfold. naive_solver.
    + apply dec_stable in Hname. apply IH in Hr. rewrite Hr. simpl.
      apply set_eq. intros k. set_unfold. naive_solver.
Qed.

(** A value of the result was there at the start, or is what the raw
    message of an entry outside [_shards] decodes to. *)
Lemma Do_range_lookup (l : list (string * json.RawMessagePtr))
    (ret r : SuggestResult) (k : string) (sgs : list (Suggestion float32)) :
  Do_range l ret = Returned r → r !! k = Some sgs →
  ret !! k = Some sgs
  ∨ k ≠ "_shards"
    ∧ ∃ raw, (k, Some raw) ∈ l ∧ Unmarshal_Suggestions raw = inr sgs.
Proof.
  revert ret. induction l as [|[name result] l IH]; intros ret Hr Hk.
  - inv Hr. by left.
  - simpl in Hr. destruct (decide (name ≠ "_shards")) as [Hname|Hname].
    + destruct result as [raw|]; [|discriminate].
      destruct (Unmarshal_Suggestions raw) as [err|sgs'] eqn:Hraw; [discriminate|].
      destruct (IH _ Hr Hk) as [Hret|(Hne & raw' & Hin & Hraw')].
      * destruct (decide (name = k)) as [->|Hnk].
        -- rewrite lookup_insert_eq in Hret. inv Hret. right.
           split; [done|]. exists raw. split; [left|done].
        -- rewrite lookup_insert_ne in Hret by done. by left.
      * right. split; [done|]. exists raw'. split; [by right|done].
    + destruct (IH _ Hr Hk) as [Hret|(Hne & raw' & Hin & Hraw')]; [by left|].
      right. split; [done|]. exists raw'. split; [by right|done].
Qed.

(** When no result is returned and no raw message outside [_shards] is
    nil, an error is returned, and it is the error of one of the raw
    messages. *)
Lemma Do_range_Failed (l : list (string * json.RawMessagePtr))
    (ret : SuggestResult) :
  (∀ name, name ≠ "_shards" → (name, None) ∉ l) →
  (∃ r, Do_range l ret = Returned r)
  ∨ ∃ name raw err, name ≠ "_shards" ∧ (name, Some raw) ∈ l
      ∧ Unmarshal_Suggestions raw = inl err ∧ Do_range l ret = Failed err.
Proof.
  revert ret. induction l as [|[name result] l IH]; intros ret Hnil.
  - left. by eexists.
  - assert (∀ name, name ≠ "_shards" → (name, None) ∉ l) as Hnil'.
    { intros name' Hname' Hin. apply (Hnil name' Hname'). by right. }
    simpl. destruct (decide (name ≠ "_shards")) as [Hname|Hname].
    + destruct result as [raw|]; [|destruct (Hnil name Hname); left].
      destruct (Unmarshal_Suggestions raw) as [err|sgs] eqn:Hraw.
      * right. exists name, raw, err. split_and!; [done|left|done|done].
      * destruct (IH (<[name := sgs]> ret) Hnil')
          as [Hr|(name' & raw' & err & ? & ? & ? & ?)]; [by left|].
        right. exists name', raw', err. split_and!; [done|by right|done|done].
    + destruct (IH ret Hnil')
        as [Hr|(name' & raw' & err & ? & ? & ? & ?)]; [by left|].
      right. exists name', raw', err. split_and!; [done|by right|done|done].
Qed.

(** The raw messages of a JSON object. *)
Lemma Decode_rawmap_Object (members : list (string * json.value)) :
  ∃ m, json.Decode_rawmap (inr (json.Object members)) = inr m
       ∧ dom m =@{gset string} list_to_set members.*1
       ∧ ∀ k, m !! k = (λ kv, json.store_raw kv.2)
                       <$> last (filter (λ kv, kv.1 = k) members).
Proof.
  eexists. split; [reflexivity|]. split.
  - apply (assignments_dom fst (λ kv, json.store_raw kv.2)).
  - intros k. apply (assignments_lookup fst (λ kv, json.store_raw kv.2)).
Qed.

(** Without the entries under [_shards], the loop still runs over an
    enumeration of a map: of the map without [_shards]. *)
Lemma range_without_shards o (m : gmap string json.RawMessagePtr) :
  filter (λ kv, kv.1 ≠ "_shards") (range o m)
  ≡ₚ map_to_list (delete "_shards" m).
Proof.
  apply NoDup_Permutation.
  - apply NoDup_filter. rewrite (range_perm o). apply NoDup_map_to_list.
  - apply NoDup_map_to_list.
  - intros [k v]. rewrite list_elem_of_filter, elem_of_range.
    rewrite elem_of_map_to_list, lookup_delete_Some. simpl. naive_solver.
Qed.

Lemma Do_decode_Object o (members : list (string * json.value)) :
  ∃ m, json.Decode_rawmap (inr (json.Object members)) = inr m
       ∧ Do_decode o (inr (json.Object members)) = Do_range (range o m) ∅.
Proof. eexists. split; reflexivity. Qed.

(** A raw message of an object is what one of its members holds. *)
Lemma rawmap_member (members : list (string * json.value))
    (m : gmap string json.RawMessagePtr) (k : string) (result : json.RawMessagePtr) :
  json.Decode_rawmap (inr (json.Object members)) = inr m →
  m !! k = Some result →
  ∃ v, (k, v) ∈ members ∧ result = json.store_raw v.
Proof.
  intros Hm Hk.
  destruct (Decode_rawmap_Object members) as (m' & Hm' & _ & Hlookup).
  rewrite Hm in Hm'. inv Hm'. rewrite Hlookup in Hk.
  apply fmap_Some in Hk as ([k' v] & Hlast & ->).
  apply last_Some_elem_of, list_elem_of_filter in Hlast as [Hkey Hin].
  simpl in Hkey. subst k'. by exists v.
Qed.

(** Under a key other than [_shards] the result holds what the raw
    message of that key decodes to. *)
Lemma Do_decode_values o (members : list (string * json.value))
    (m : gmap string json.RawMessagePtr) (ret : SuggestResult)
    (k : string) (sgs : list (Suggestion float32)) :
  json.Decode_rawmap (inr (json.Object members)) = inr m →
  Do_decode o (inr (json.Object members)) = Returned ret →
  ret !! k = Some sgs
  ↔ k ≠ "_shards"
    ∧ ∃ raw, m !! k = Some (Some raw) ∧ Unmarshal_Suggestions raw = inr sgs.
Proof.
  intros Hm Hret. unfold Do_decode in Hret. rewrite Hm in Hret. split.
  - intros Hk.
    destruct (Do_range_lookup _ _ _ _ _ Hret Hk)
      as [Hempty|(Hne & raw & Hin & Hraw)]; [by rewrite lookup_empty in Hempty|].
    split; [done|]. exists raw. by rewrite <- elem_of_range.
  - intros (Hne & raw & Hlookup & Hraw).
    assert (k ∈ dom ret) as [sgs' Hk]%elem_of_dom.
    { rewrite (Do_range_dom _ _ _ Hret), range_keys.
      apply elem_of_union_r, elem_of_difference. split.
      - by apply elem_of_dom_2 in Hlookup.
      - by apply not_elem_of_singleton. }
    destruct (Do_range_lookup _ _ _ _ _ Hret Hk)
      as [Hempty|(_ & raw' & Hin & Hraw')]; [by rewrite lookup_empty in Hempty|].
    apply elem_of_range in Hin. congruence.
Qed.

(** A body that is [null] leaves the map nil: the result is empty.  A
    body that is an array or a scalar is a type error. *)
Lemma Do_decode_not_an_object o (v : json.value) :
  match v with
  | json.Object _ => True
  | json.Null => Do_decode o (inr v) = Returned ∅
  | _ => Do_decode o (inr v)
         = Failed (UnmarshalTypeError (json.describe v)
                     "map[string]*json.RawMessage")
  end.
Proof.
  destruct v; try done. unfold Do_decode. simpl. by rewrite range_empty.
Qed.

(** C5: the key [_shards] is never a key of the result, and its value
    is never decoded: decoding a response object runs the loop over the
    raw messages of the same object without [_shards], so that the
    shape of its value (an object, an array, a scalar, null) cannot make
    the decoding fail; when every other member decodes, a result is
    returned; and the keys of the result are exactly the top-level keys
    of the response other than [_shards]. *)
Theorem C5_shards_is_excluded o (members : list (string * json.value)) :
  (∀ ret, Do_decode o (inr (json.Object members)) = Returned ret →
     ("_shards" ∉ dom ret)
     ∧ dom ret =@{gset string} list_to_set members.*1 ∖ {["_shards"]})
  ∧ (∃ m l, json.Decode_rawmap (inr (json.Object members)) = inr m
        ∧ l ≡ₚ map_to_list (delete "_shards" m)
        ∧ Do_decode o (inr (json.Object members)) = Do_range l ∅)
  ∧ ((∀ k v, (k, v) ∈ members → k ≠ "_shards" →
        v ≠ json.Null ∧ ∃ sgs, Unmarshal_Suggestions v = inr sgs) →
     ∃ ret, Do_decode o (inr (json.Object members)) = Returned ret).
Proof.
  destruct (Decode_rawmap_Object members) as (m & Hm & Hdom & Hlookup).
  assert (Do_decode o (inr (json.Object members)) = Do_range (range o m) ∅)
    as Hdecode.
  { destruct (Do_decode_Object o members) as (m' & Hm' & ->). congruence. }
  split_and!.
  - intros ret Hret. rewrite Hdecode in Hret. apply Do_range_dom in Hret.
    rewrite Hret, range_keys, Hdom, dom_empty_L.
    split; [|apply set_eq; intros k]; set_unfold; naive_solver.
  - exists m, (filter (λ kv, kv.1 ≠ "_shards") (range o m)).
    split; [done|]. split; [apply range_without_shards|].
    rewrite Hdecode. apply Do_range_skips_shards.
  - intros Hall. rewrite Hdecode. apply Do_range_Returned.
    intros name result Hin Hname. apply elem_of_range in Hin.
    destruct (rawmap_member members m name result Hm Hin) as (v & Hv & ->).
    destruct (Hall name v Hv Hname) as (Hnull & sgs & Hsgs).
    exists v, sgs. split; [by destruct v|done].
Qed.

(** C6: a value outside [_shards] that does not decode as an array of
    suggestions never leaves a result, partial or not; [Do] returns the
    decoding error when no value outside [_shards] is [null], as for a
    response with a string under one key.  But a [null] there is a nil
    raw message, which the loop dereferences: when it is met first,
    [Do] panics and returns no error, as for the response
    {"a": null, "b": "x"} iterated in key order, and for {"a": null}
    in any order. *)
Theorem C6_undecodable_value_no_result :
  Do_decode canonical_order
    (inr (json.Object [("a", json.Null); ("b", json.String_ "x")]))
  = Panicked
  ∧ (∀ o, Do_decode o (inr (json.Object [("a", json.Null)])) = Panicked)
  ∧ Do_decode reversed_order
      (inr (json.Object [("a", json.Null); ("b", json.String_ "x")]))
    = Failed (UnmarshalTypeError "string" "[]elastic.Suggestion")
  ∧ (∀ o x, Do_decode o (inr (json.Object [("b", json.String_ x)]))
            = Failed (UnmarshalTypeError "string" "[]elastic.Suggestion"))
  ∧ (∀ o body m k raw err,
       json.Decode_rawmap body = inr m →
       k ≠ "_shards" → m !! k = Some (Some raw) →
       Unmarshal_Suggestions raw = inl err →
       (∀ ret, Do_decode o body ≠ Returned ret)
       ∧ ((∀ k', k' ≠ "_shards" → m !! k' ≠ Some None) →
          ∃ k' raw' err', k' ≠ "_shards" ∧ m !! k' = Some (Some raw')
            ∧ Unmarshal_Suggestions raw' = inl err'
            ∧ Do_decode o body = Failed err')).
Proof.
  split; [by vm_compute|]. split.
  { intros o. unfold Do_decode. simpl.
    assert (range o ({["a" := None]} : gmap string json.RawMessagePtr)
            = [("a", None)]) as Hrange.
    { apply Permutation_singleton_r.
      by rewrite (range_perm o), map_to_list_singleton. }
    rewrite insert_empty, Hrange. reflexivity. }
  split; [by vm_compute|]. split.
  - intros o x. unfold Do_decode. simpl.
    assert (range o ({["b" := Some (json.String_ x)]} : gmap string json.RawMessagePtr)
            = [("b", Some (json.String_ x))]) as Hrange.
    { apply Permutation_singleton_r.
      by rewrite (range_perm o), map_to_list_singleton. }
    rewrite insert_empty, Hrange. reflexivity.
  - intros o body m k raw err Hm Hk Hraw Herr. unfold Do_decode. rewrite Hm.
    split.
    + intros ret Hret.
      destruct (proj1 (Do_range_Returned (range o m) ∅) (ex_intro _ ret Hret)
                  k (Some raw)) as (raw' & sgs & Heq & Hsgs);
        [by apply elem_of_range|done|]. congruence.
    + intros Hnil.
      destruct (Do_range_Failed (range o m) ∅)
        as [[ret Hret]|(k' & raw' & err' & ? & Hin & ? & ?)].
      * intros name Hname Hin. apply elem_of_range in Hin.
        by apply (Hnil name).
      * destruct (proj1 (Do_range_Returned (range o m) ∅) (ex_intro _ ret Hret)
                    k (Some raw)) as (raw' & sgs & Heq & Hsgs);
          [by apply elem_of_range|done|]. congruence.
      * exists k', raw', err'. apply elem_of_range in Hin. done.
Qed.

(** C7: decoding the empty object {} returns the empty result, not an
    error. *)
Theorem C7_empty_object_empty_result o :
  Do_decode o (inr (json.Object [])) = Returned ∅
  ∧ ∀ s req res,
      NewRequest (client s) "POST" (Do_urls o s) = inr req →
      c_Do (client s) (SetBodyJson req (Do_body s)) = inr res →
      checkResponse res = None →
      Body res = inr (json.Object []) →
      (Do o s).1 = Returned ∅.
Proof.
  assert (Do_decode o (inr (json.Object [])) = Returned ∅) as Hempty.
  { unfold Do_decode. simpl. by rewrite range_empty. }
  split; [exact Hempty|]. intros s req res Hreq Hres Hcheck Hbody.
  rewrite (Do_decodes o s req res) by done. simpl. by rewrite Hbody.
Qed.

(** C8: when the transport returns an error, or a response that
    [checkResponse] rejects, [Do] returns that error at once and no
    result; its last act was to send the request: the body of the
    response is not decoded. *)
Theorem C8_transport_failure_is_returned o s (req : Request) :
  NewRequest (client s) "POST" (Do_urls o s) = inr req →
  (∀ err, c_Do (client s) (SetBodyJson req (Do_body s)) = inl err →
          Do o s = (Failed err, events_sending s (SetBodyJson req (Do_body s))))
  ∧ (∀ res err,
       c_Do (client s) (SetBodyJson req (Do_body s)) = inr res →
       checkResponse res = Some err →
       Do o s = (Failed err, events_sending s (SetBodyJson req (Do_body s))))
  ∧ (∀ res, DecodeBody res ∉ events_sending s (SetBodyJson req (Do_body s)))
  ∧ last (events_sending s (SetBodyJson req (Do_body s)))
    = Some (Send (SetBodyJson req (Do_body s))).
Proof.
  intros Hreq. split_and!.
  - intros err. by apply Do_transport_fails.
  - intros res err. by apply Do_check_fails.
  - intros res. unfold events_sending.
    destruct (debug s); simpl; intros Hin;
      repeat (apply elem_of_cons in Hin as [Hin|Hin]; [discriminate|]);
      inv Hin.
  - unfold events_sending. apply last_snoc.
Qed.

End Properties.

(** * The statements on concrete requests and responses *)

Lemma C1_witness :
  Do_path (Indices (NewSuggestService Reference.down) ["idx1"; "idx2"])
  = "/idx1,idx2/_suggest"
  ∧ Do_path (Type_ (NewSuggestService Reference.down) "typ1")
    = "/typ1/_suggest".
Proof.
  pose proof (C1_path_of_indices_and_types Reference.down [] [])
    as (_ & _ & _ & Hidx & Htyp).
  split; [apply Hidx; reflexivity|apply Htyp; reflexivity].
Defined.

Lemma C9_witness :
  Do_path (Pretty (NewSuggestService Reference.down) true) = "//_suggest"
  ∧ ∀ o, Do_urls o (Pretty (NewSuggestService Reference.down) true)
         = "//_suggest" +:+ query_string (Pretty (NewSuggestService Reference.down) true).
Proof.
  apply (C9_empty_lists_double_slash
           (Pretty (NewSuggestService Reference.down) true));
    reflexivity.
Defined.

Lemma C2_witness :
  Do_urls canonical_order (Routing (NewSuggestService Reference.down) "r1")
  = "//_suggest?routing=r1"
  ∧ Do_urls canonical_order (Index (NewSuggestService Reference.down) "a?b")
    = "/a%3Fb/_suggest"
  ∧ strings.ContainsByte
      (Do_urls canonical_order (Index (NewSuggestService Reference.down) "a?b"))
      "?" = false.
Proof.
  pose proof (C2_query_string_of_scalar_options canonical_order
                (Routing (NewSuggestService Reference.down) "r1"))
    as (_ & _ & _ & Hrouting).
  pose proof (C2_query_string_of_scalar_options canonical_order
                (Index (NewSuggestService Reference.down) "a?b"))
    as (_ & _ & Hnone & _).
  split; [apply Hrouting; reflexivity|].
  destruct Hnone as [Hurls Hmark]; [reflexivity..|].
  split; [exact Hurls|]. apply Hmark. repeat constructor.
Defined.

Lemma C10_witness :
  Do_urls reversed_order
    (Preference (Pretty (Routing (NewSuggestService Reference.down) "r 1") true)
       "_local")
  = "//_suggest?preference=_local&pretty=true&routing=r+1".
Proof.
  pose proof (C10_parameters_in_key_order reversed_order
                (NewSuggestService Reference.down) "r 1" "_local")
    as (_ & _ & _ & _ & _ & Hall).
  destruct Hall as [Hthree _]; [discriminate..|]. exact Hthree.
Defined.

Lemma C3_witness :
  Do_body (NewSuggestService Reference.down) = ∅
  ∧ Send (Reference.post "//_suggest" ∅)
    ∈ (Do canonical_order (NewSuggestService Reference.down)).2.
Proof.
  pose proof (C3_body_of_suggesters canonical_order
                (NewSuggestService Reference.down))
    as (_ & _ & _ & _ & Hnone & Hsent).
  split; [apply Hnone; reflexivity|].
  apply (Hsent {| Reference.Method := "POST"; Reference.URL := "//_suggest";
                  Reference.BodyJson := None |}).
  reflexivity.
Defined.

Lemma C4_witness :
  Do_body
    (Suggester_ (Suggester_ (NewSuggestService Reference.down) Reference.A)
       Reference.A')
  = {["s" := json.Number "2"]}.
Proof.
  pose proof (C4_same_name_last_wins (NewSuggestService Reference.down)
                Reference.A Reference.A' eq_refl)
    as (_ & _ & _ & Hfresh).
  apply Hfresh. reflexivity.
Defined.

Lemma C5_witness :
  ∃ ret : gmap string (list (Suggestion Reference.float32)),
    Do_decode (H := Reference.collaborators) canonical_order
      (inr (json.Object Reference.response_members))
    = Returned ret
    ∧ dom ret =@{gset string} list_to_set ["_shards"; "my-suggest"] ∖ {["_shards"]}.
Proof.
  pose proof (C5_shards_is_excluded (H := Reference.collaborators)
                canonical_order Reference.response_members)
    as (Hkeys & _ & Hreturned).
  destruct Hreturned as [ret Hret].
  - intros k v Hin Hk. unfold Reference.response_members in Hin.
    apply elem_of_cons in Hin as [Heq|Hin]; [by inv Heq|].
    apply elem_of_cons in Hin as [Heq|Hin]; [|inv Hin].
    inv Heq. split; [discriminate|]. eexists. vm_compute. reflexivity.
  - exists ret. split; [exact Hret|]. by apply Hkeys.
Defined.

Lemma C7_witness :
  (Do canonical_order
     (NewSuggestService (Reference.answers 200 (json.Object [])))).1
  = Returned ∅.
Proof.
  pose proof (C7_empty_object_empty_result (H := Reference.collaborators)
                canonical_order) as [_ Hrun].
  apply (Hrun _ {| Reference.Method := "POST"; Reference.URL := "//_suggest";
                   Reference.BodyJson := None |}
              {| Reference.StatusCode := 200;
                 Reference.Content := inr (json.Object []) |});
    reflexivity.
Defined.

Lemma C8_witness :
  Do canonical_order (NewSuggestService Reference.down)
  = (Failed (ExternalError "dial tcp: connection refused"),
     [Send (Reference.post "//_suggest" ∅)])
  ∧ Do canonical_order
      (NewSuggestService
         (Reference.answers 503 (json.Object Reference.response_members)))
    = (Failed (ExternalError "elastic: unexpected status"),
       [Send (Reference.post "//_suggest" ∅)]).
Proof.
  split.
  - apply (C8_transport_failure_is_returned canonical_order
             (NewSuggestService Reference.down)
             {| Reference.Method := "POST"; Reference.URL := "//_suggest";
                Reference.BodyJson := None |} eq_refl).
    reflexivity.
  - apply (proj1 (proj2
             (C8_transport_failure_is_returned canonical_order
                (NewSuggestService
                   (Reference.answers 503 (json.Object Reference.response_members)))
                {| Reference.Method := "POST"; Reference.URL := "//_suggest";
                   Reference.BodyJson := None |} eq_refl))
             {| Reference.StatusCode := 503;
                Reference.Content := inr (json.Object Reference.response_members) |}).
    + reflexivity.
    + reflexivity.
Defined.

(** The run of [Do] on the response {"a": null, "b": "x"}: the request
    is sent, the body is read, the nil raw message of [a] is
    dereferenced; the deferred [Close] still runs. *)
Example Do_panics_on_null_member :
  Do canonical_order
    (NewSuggestService
       (Reference.answers 200
          (json.Object [("a", json.Null); ("b", json.String_ "x")])))
  = (Panicked,
     [Send (Reference.post "//_suggest" ∅);
      DecodeBody {| Reference.StatusCode := 200;
                    Reference.Content :=
                      inr (json.Object [("a", json.Null); ("b", json.String_ "x")]) |};
      CloseBody {| Reference.StatusCode := 200;
                   Reference.Content :=
                     inr (json.Object [("a", json.Null); ("b", json.String_ "x")]) |}]).
Proof. vm_compute. reflexivity. Qed.

(** The reference response decodes to one entry, the suggestions under
    [my-suggest]; nothing stands under [_shards]. *)
Example decode_reference_response :
  ∃ ret : gmap string (list (Suggestion Reference.float32)),
    Do_decode (H := Reference.collaborators) reversed_order
      (inr (json.Object Reference.response_members)) = Returned ret
    ∧ ret !! "my-suggest"
      = Some [ {| Text := "tring"; Offset := 0; Length := 5;
                  Options := [ {| option_Text := "trying"; Score := "0.8";
                                  Freq := 12 |} ] |} ]
    ∧ ret !! "_shards" = None
    ∧ size ret = 1.
Proof.
  eexists. split; [vm_compute; reflexivity|]. split_and!; reflexivity.
Qed.

(** * Further properties of suggest.go *)

Section Builder.

Context `{!Collaborators}.

Implicit Types (s : SuggestService) (o : MapOrder).

Lemma chain_cons s (c : call) (calls : list call) :
  chain s (c :: calls) = chain (apply_call s c) calls.
Proof. reflexivity. Qed.

Lemma last_default_cons {A} (x d : A) (l : list A) :
  default d (last (x :: l)) = default x (last l).
Proof. rewrite last_cons. by destruct (last l). Qed.

(** X1: after any chain of configuration calls, the index, type and
    suggester lists are what the service had, followed by everything
    the calls of that kind were given, in the order of the calls; each
    scalar option is what the last call of its kind was given, and what
    the service had when there was none; and the client is untouched.
    A call changes no field but its own. *)
Theorem X1_chain_of_calls s (calls : list call) :
  client (chain s calls) = client s
  ∧ indices (chain s calls) = indices s ++ given_indices calls
  ∧ types (chain s calls) = types s ++ given_types calls
  ∧ suggesters (chain s calls) = suggesters s ++ given_suggesters calls
  ∧ pretty (chain s calls) = default (pretty s) (last (given_pretty calls))
  ∧ debug (chain s calls) = default (debug s) (last (given_debug calls))
  ∧ routing (chain s calls) = default (routing s) (last (given_routing calls))
  ∧ preference (chain s calls)
    = default (preference s) (last (given_preference calls)).
Proof.
  revert s. induction calls as [|c calls IH]; intros s.
  - unfold given_indices, given_types, given_suggesters. simpl.
    by rewrite !app_nil_r.
  - rewrite chain_cons.
    destruct (IH (apply_call s c)) as (-> & -> & -> & -> & -> & -> & -> & ->).
    unfold given_indices, given_types, given_suggesters, given_pretty,
      given_debug, given_routing, given_preference.
    destruct c; simpl; rewrite ?last_default_cons, <- ?app_assoc; done.
Qed.

End Builder.

Section Runs.

Context `{!Collaborators}.

Implicit Types (s : SuggestService) (o : MapOrder).

(** The four ways a run of [Do] goes. *)
Lemma Do_cases o s :
  (∃ err, NewRequest (client s) "POST" (Do_urls o s) = inl err
          ∧ Do o s = (Failed err, []))
  ∨ ∃ req, NewRequest (client s) "POST" (Do_urls o s) = inr req
    ∧ ((∃ err, c_Do (client s) (SetBodyJson req (Do_body s)) = inl err
               ∧ Do o s = (Failed err,
                           events_sending s (SetBodyJson req (Do_body s))))
       ∨ ∃ res, c_Do (client s) (SetBodyJson req (Do_body s)) = inr res
         ∧ ((∃ err, checkResponse res = Some err
                    ∧ Do o s = (Failed err,
                                events_sending s (SetBodyJson req (Do_body s))))
            ∨ checkResponse res = None
              ∧ Do o s = (Do_decode o (Body res),
                          events_sending s (SetBodyJson req (Do_body s))
                          ++ events_decoding s res))).
Proof.
  destruct (NewRequest (client s) "POST" (Do_urls o s)) as [err|req] eqn:Hreq.
  { left. exists err. split; [done|]. by apply Do_NewRequest_fails. }
  right. exists req. split; [done|].
  destruct (c_Do (client s) (SetBodyJson req (Do_body s))) as [err|res] eqn:Hres.
  { left. exists err. split; [done|]. by apply Do_transport_fails. }
  right. exists res. split; [done|].
  destruct (checkResponse res) as [err|] eqn:Hcheck.
  { left. exists err. split; [done|]. by apply (Do_check_fails o s req res). }
  right. split; [done|]. by apply Do_decodes.
Qed.

(** X2: when the request cannot be built, [Do] returns the error of
    [NewRequest] and does nothing else, not even the debug dump;
    otherwise it sends exactly one request, the one carrying the body,
    however the run ends: there is no retry. *)
Theorem X2_one_request_at_most o s :
  (∀ err, NewRequest (client s) "POST" (Do_urls o s) = inl err →
          Do o s = (Failed err, []))
  ∧ (∀ req, NewRequest (client s) "POST" (Do_urls o s) = inr req →
            filter (λ ev, is_Send ev = true) (Do o s).2
            = [Send (SetBodyJson req (Do_body s))]).
Proof.
  split; [intros err; apply Do_NewRequest_fails|].
  intros req Hreq.
  assert (∀ tail, filter (λ ev, is_Send ev = true) tail = [] →
            filter (λ ev, is_Send ev = true)
              (events_sending s (SetBodyJson req (Do_body s)) ++ tail)
            = [Send (SetBodyJson req (Do_body s))]) as Hone.
  { intros tail Htail. rewrite filter_app, Htail. unfold events_sending.
    by destruct (debug s). }
  destruct (Do_cases o s) as [(err & Hfail & _)|(req' & Hreq' & Hrun)];
    [congruence|].
  rewrite Hreq in Hreq'. inv Hreq'.
  destruct Hrun as [(err & _ & ->)|(res & _ & [(err & _ & ->)|[_ ->]])]; simpl.
  - rewrite <- (app_nil_r (events_sending _ _)). by apply Hone.
  - rewrite <- (app_nil_r (events_sending _ _)). by apply Hone.
  - apply Hone. unfold events_decoding. by destruct (debug s).
Qed.



(** X5: a body that cannot be read, or is no JSON text, makes [Do]
    return that error; a body that is an array, a string, a number or a
    boolean makes it return a type error; but a body that is the JSON
    [null] is accepted: the map of raw messages stays nil and [Do]
    returns the empty result. *)
Theorem X5_body_that_is_no_object o s (req : Request) (res : Response) :
  NewRequest (client s) "POST" (Do_urls o s) = inr req →
  c_Do (client s) (SetBodyJson req (Do_body s)) = inr res →
  checkResponse res = None →
  (∀ err, Body res = inl err → (Do o s).1 = Failed err)
  ∧ (Body res = inr json.Null → (Do o s).1 = Returned ∅)
  ∧ (∀ v, Body res = inr v → v ≠ json.Null →
          (∀ members, v ≠ json.Object members) →
          (Do o s).1 = Failed (UnmarshalTypeError (json.describe v)
                                 "map[string]*json.RawMessage")).
Proof.
  intros Hreq Hres Hcheck. rewrite (Do_decodes o s req res) by done. simpl.
  split_and!.
  - intros err ->. reflexivity.
  - intros ->. unfold Do_decode. simpl. by rewrite range_empty.
  - intros v -> Hnull Hobject.
    destruct v; [done| | | | |by destruct (Hobject members)]; reflexivity.
Qed.


(** A raw message that is not nil is not [null]. *)
Lemma rawmap_not_Null (body : error + json.value)
    (m : gmap string json.RawMessagePtr) (k : string) :
  json.Decode_rawmap body = inr m → m !! k ≠ Some (Some json.Null).
Proof.
  intros Hm Hk. destruct body as [err|v]; [discriminate|].
  destruct v; try discriminate.
  - inv Hm; try by rewrite lookup_empty in Hk.
  - destruct (rawmap_member members m k _ Hm Hk) as (v & _ & Hv).
    by destruct v.
Qed.

(** An array decodes when each element does, to the elements decoded,
    in their order. *)
Lemma Unmarshal_elems_Forall2 {A} (elem : json.value → error + A)
    (elems : list json.value) (xs : list A) :
  json.Unmarshal_elems elem elems = inr xs
  ↔ Forall2 (λ v x, elem v = inr x) elems xs.
Proof.
  revert xs. induction elems as [|v elems IH]; intros xs; simpl.
  - split; [intros Heq; inv Heq; constructor|intros Hall; by inv Hall].
  - destruct (elem v) as [err|x] eqn:Hv.
    + split; [discriminate|]. intros Hall. inv Hall. congruence.
    + destruct (json.Unmarshal_elems elem elems) as [err|xs'] eqn:Hrest.
      * split; [discriminate|]. intros Hall. inv Hall.
        match goal with Hf : Forall2 _ elems _ |- _ => apply IH in Hf end.
        discriminate.
      * split.
        -- intros Heq. inv Heq. constructor; [done|]. by apply IH.
        -- intros Hall. inv Hall.
           match goal with Hf : Forall2 _ elems _ |- _ => apply IH in Hf end.
           congruence.
Qed.

(** X6: when [Do] returns a result, the result holds a sequence of
    suggestions under a key exactly when the key is not [_shards] and
    the response has an array under it whose elements decode, one by
    one and in their order, to these suggestions; of several members
    with the same key the last one counts. *)
Theorem X6_result_values o s (req : Request) (res : Response)
    (m : gmap string json.RawMessagePtr) (ret : SuggestResult) :
  NewRequest (client s) "POST" (Do_urls o s) = inr req →
  c_Do (client s) (SetBodyJson req (Do_body s)) = inr res →
  checkResponse res = None →
  json.Decode_rawmap (Body res) = inr m →
  (Do o s).1 = Returned ret →
  (∀ k sgs,
     ret !! k = Some sgs
     ↔ k ≠ "_shards"
       ∧ ∃ elems, m !! k = Some (Some (json.Array elems))
                  ∧ Forall2 (λ v sg, Unmarshal_Suggestion v = inr sg) elems sgs)
  ∧ (∀ members, Body res = inr (json.Object members) →
       ∀ k, m !! k = (λ kv, json.store_raw kv.2)
                     <$> last (filter (λ kv, kv.1 = k) members)).
Proof.
  intros Hreq Hres Hcheck Hm Hret.
  rewrite (Do_decodes o s req res) in Hret by done. simpl in Hret.
  unfold Do_decode in Hret. rewrite Hm in Hret. split.
  - intros k sgs. split.
    + intros Hk.
      destruct (Do_range_lookup _ _ _ _ _ Hret Hk)
        as [Hempty|(Hne & raw & Hin & Hraw)];
        [by rewrite lookup_empty in Hempty|].
      split; [done|]. apply elem_of_range in Hin.
      pose proof (rawmap_not_Null _ _ k Hm) as Hnull.
      unfold Unmarshal_Suggestions, json.Unmarshal_slice in Hraw.
      destruct raw; try discriminate; [by destruct Hnull|].
      exists elems. split; [done|]. by apply Unmarshal_elems_Forall2.
    + intros (Hne & elems & Hlookup & Hall).
      apply Unmarshal_elems_Forall2 in Hall.
      assert (k ∈ dom ret) as [sgs' Hk]%elem_of_dom.
      { rewrite (Do_range_dom _ _ _ Hret), range_keys.
        apply elem_of_union_r, elem_of_difference. split.
        - by apply elem_of_dom_2 in Hlookup.
        - by apply not_elem_of_singleton. }
      destruct (Do_range_lookup _ _ _ _ _ Hret Hk)
        as [Hempty|(_ & raw' & Hin & Hraw')];
        [by rewrite lookup_empty in Hempty|].
      apply elem_of_range in Hin. rewrite Hlookup in Hin. inv Hin.
      unfold Unmarshal_Suggestions, json.Unmarshal_slice in Hraw'. congruence.
  - intros members Hbody k. rewrite Hbody in Hm.
    destruct (Decode_rawmap_Object members) as (m' & Hm' & _ & Hlookup).
    rewrite Hm in Hm'. inv Hm'. apply Hlookup.
Qed.

(** X7: [Do] returns a result exactly when the request could be built,
    the transport answered, [checkResponse] accepted the answer, the
    body is a JSON object or [null], and every member other than
    [_shards] (the last one of each key) is not [null] and decodes as
    an array of suggestions. *)
Theorem X7_success_criterion o s :
  (∃ ret, (Do o s).1 = Returned ret)
  ↔ ∃ req res m,
      NewRequest (client s) "POST" (Do_urls o s) = inr req
      ∧ c_Do (client s) (SetBodyJson req (Do_body s)) = inr res
      ∧ checkResponse res = None
      ∧ json.Decode_rawmap (Body res) = inr m
      ∧ ∀ k result, k ≠ "_shards" → m !! k = Some result →
          ∃ raw sgs, result = Some raw ∧ Unmarshal_Suggestions raw = inr sgs.
Proof.
  split.
  - intros [ret Hret].
    destruct (Do_cases o s) as [(err & _ & Hrun)|(req & Hreq & Hrun)];
      [rewrite Hrun in Hret; discriminate|].
    destruct Hrun as [(err & _ & Hrun)|(res & Hres & Hrun)];
      [rewrite Hrun in Hret; discriminate|].
    destruct Hrun as [(err & _ & Hrun)|[Hcheck Hrun]];
      [rewrite Hrun in Hret; discriminate|].
    rewrite Hrun in Hret. simpl in Hret. unfold Do_decode in Hret.
    destruct (json.Decode_rawmap (Body res)) as [err|m] eqn:Hm; [discriminate|].
    exists req, res, m. split_and!; try done.
    intros k result Hk Hlookup.
    apply (proj1 (Do_range_Returned (range o m) ∅) (ex_intro _ ret Hret) k);
      [by apply elem_of_range|done].
  - intros (req & res & m & Hreq & Hres & Hcheck & Hm & Hall).
    rewrite (Do_decodes o s req res) by done. simpl.
    unfold Do_decode. rewrite Hm. apply Do_range_Returned.
    intros name result Hin Hname. apply elem_of_range in Hin. by apply (Hall name).
Qed.


End Runs.

(** ** Escaping *)

Lemma CountByte_app (s1 s2 : string) (c : ascii) :
  strings.CountByte (s1 +:+ s2) c
  = strings.CountByte s1 c + strings.CountByte s2 c.
Proof.
  induction s1 as [|a s1 IH]; [reflexivity|].
  rewrite app_cons. simpl. rewrite IH. lia.
Qed.

Lemma CountByte_AllBytes (p : ascii → bool) (s : string) (c : ascii) :
  strings.AllBytes p s = true → p c = false → strings.CountByte s c = 0.
Proof.
  intros Hall Hc. induction s as [|a s IH]; [reflexivity|].
  simpl in *. apply andb_true_iff in Hall as [Ha Hs].
  destruct (Ascii.eqb_spec a c) as [->|_]; [congruence|]. by rewrite IH.
Qed.

(** [QueryEscape] writes nothing but unreserved bytes, [+] and [%]. *)
Lemma QueryEscape_alphabet (x : string) :
  strings.AllBytes url.escaped_alphabet (url.QueryEscape x) = true.
Proof.
  induction x as [|a x IH]; [reflexivity|].
  destruct a as [[] [] [] [] [] [] [] []]; exact IH.
Qed.

(** [QueryUnescape] undoes [QueryEscape]. *)
Lemma QueryUnescape_QueryEscape (x : string) :
  url.QueryUnescape (url.QueryEscape x) = Some x.
Proof.
  induction x as [|a x IH]; [reflexivity|].
  transitivity (String a <$> url.QueryUnescape (url.QueryEscape x));
    [|by rewrite IH].
  destruct a as [[] [] [] [] [] [] [] []]; reflexivity.
Qed.

Lemma QueryEscape_inj (x y : string) :
  url.QueryEscape x = url.QueryEscape y → x = y.
Proof.
  intros Heq. apply (f_equal url.QueryUnescape) in Heq.
  rewrite !QueryUnescape_QueryEscape in Heq. congruence.
Qed.

Lemma string_app_inj_r (s1 s2 t : string) : s1 +:+ t = s2 +:+ t → s1 = s2.
Proof.
  revert s2. induction s1 as [|a s1 IH]; intros [|b s2] Heq.
  - reflexivity.
  - apply (f_equal String.length) in Heq.
    rewrite !string_length_app in Heq. simpl in Heq. lia.
  - apply (f_equal String.length) in Heq.
    rewrite !string_length_app in Heq. simpl in Heq. lia.
  - rewrite !app_cons in Heq. inv Heq. f_equal. by apply IH.
Qed.

(** ** Assignments under distinct keys *)

Lemma filter_key_at_most_one {A} (key : A → string) (xs : list A) (k : string) :
  NoDup (key <$> xs) →
  filter (λ x, key x = k) xs = [] ∨ ∃ x, filter (λ x, key x = k) xs = [x].
Proof.
  induction xs as [|a xs IH]; intros Hnodup; [by left|].
  rewrite fmap_cons in Hnodup. apply NoDup_cons in Hnodup as [Hfresh Hnodup].
  destruct (decide (key a = k)) as [Hk|Hk].
  - right. exists a. rewrite filter_cons_True by done. f_equal.
    apply filter_none. intros x Hx Hkx. apply Hfresh, list_elem_of_fmap.
    exists x. split; [congruence|done].
  - rewrite filter_cons_False by done. by apply IH.
Qed.

(** With distinct keys the order of the assignments does not matter. *)
Lemma assignments_Permutation {A V} (key : A → string) (val : A → V)
    (xs ys : list A) :
  NoDup (key <$> xs) → xs ≡ₚ ys →
  fold_left (λ m x, <[key x := val x]> m) xs (∅ : gmap string V)
  = fold_left (λ m x, <[key x := val x]> m) ys ∅.
Proof.
  intros Hnodup Hperm. apply map_eq. intros k.
  rewrite !assignments_lookup. f_equal.
  assert (filter (λ x, key x = k) xs ≡ₚ filter (λ x, key x = k) ys) as Hfilter
    by (by rewrite Hperm).
  destruct (filter_key_at_most_one key xs k Hnodup) as [Hnone|[x Hone]].
  - rewrite Hnone in Hfilter |- *. by apply Permutation_nil_l in Hfilter as <-.
  - rewrite Hone in Hfilter |- *.
    by apply Permutation_singleton_l in Hfilter as <-.
Qed.

Section Requests.

Context `{!Collaborators}.

Implicit Types (s : SuggestService) (o : MapOrder).

(** X9: for suggesters with distinct names the body does not depend on
    the order they were registered in. *)
Theorem X9_body_order_of_distinct_names s s' :
  NoDup (Name <$> suggesters s) →
  suggesters s ≡ₚ suggesters s' →
  Do_body s = Do_body s'.
Proof.
  intros Hnodup Hperm.
  by apply (assignments_Permutation Name (λ sg, Source sg false)).
Qed.

(** The number of parameters of a configuration. *)
Lemma query_parameters_length s :
  length (query_parameters s)
  = (if pretty s then 1 else 0)
    + (if decide (routing s ≠ "") then 1 else 0)
    + (if decide (preference s ≠ "") then 1 else 0).
Proof.
  unfold query_parameters.
  by destruct (pretty s), (decide (routing s ≠ "")), (decide (preference s ≠ "")).
Qed.

(** X10: whatever bytes the routing and the preference hold, what [Do]
    appends to the path has one equals sign for each option set, one
    ampersand between two of them and one question mark in front, or is
    empty when no option is set: a value cannot bring in a parameter of
    its own, its reserved bytes being escaped. *)
Theorem X10_values_cannot_add_parameters o s :
  (∀ x, strings.AllBytes url.escaped_alphabet (url.QueryEscape x) = true)
  ∧ ∃ q, Do_urls o s = Do_path s +:+ q
         ∧ strings.CountByte q "=" = length (query_parameters s)
         ∧ strings.CountByte q "&" = length (query_parameters s) - 1
         ∧ strings.CountByte q "?" = min 1 (length (query_parameters s))
         ∧ length (query_parameters s)
           = (if pretty s then 1 else 0)
             + (if decide (routing s ≠ "") then 1 else 0)
             + (if decide (preference s ≠ "") then 1 else 0).
Proof.
  split; [apply QueryEscape_alphabet|].
  exists (query_string s). split; [apply Do_urls_query|].
  split_and!; [..|apply query_parameters_length];
    unfold query_string, query_parameters;
    destruct (pretty s), (decide (routing s ≠ "")), (decide (preference s ≠ ""));
    simpl; rewrite ?CountByte_app;
    rewrite ?(CountByte_AllBytes url.escaped_alphabet (url.QueryEscape _))
      by (apply QueryEscape_alphabet || reflexivity);
    reflexivity.
Qed.

(** X11: escaping loses nothing: [QueryUnescape] gives back what
    [QueryEscape] was given, so two configurations that differ in the
    routing only, or in the preference only, never have the same URL. *)
Theorem X11_url_determines_routing_and_preference o s :
  (∀ x, url.QueryUnescape (url.QueryEscape x) = Some x)
  ∧ (∀ r1 r2, Do_urls o (Routing s r1) = Do_urls o (Routing s r2) → r1 = r2)
  ∧ (∀ p1 p2, Do_urls o (Preference s p1) = Do_urls o (Preference s p2) →
              p1 = p2).
Proof.
  split; [apply QueryUnescape_QueryEscape|]. split.
  - intros r1 r2. rewrite !Do_urls_query.
    change (Do_path (Routing s r1)) with (Do_path s).
    change (Do_path (Routing s r2)) with (Do_path s).
    intros Hq%(inj (String.app _)).
    unfold query_string, query_parameters in Hq. simpl in Hq.
    destruct (decide (r1 ≠ "")) as [Hr1|Hr1%dec_stable],
             (decide (r2 ≠ "")) as [Hr2|Hr2%dec_stable];
      [|exfalso..|congruence];
      destruct (decide (preference s ≠ "")), (pretty s); simpl in Hq;
      rewrite ?string_app_assoc in Hq;
      try (apply (f_equal String.length) in Hq;
           rewrite ?string_length_app in Hq; simpl in Hq; lia);
      repeat match type of Hq with
             | ?a +:+ _ = ?a +:+ _ => apply (inj (String.app a)) in Hq
             end;
      by apply QueryEscape_inj.
  - intros p1 p2. rewrite !Do_urls_query.
    change (Do_path (Preference s p1)) with (Do_path s).
    change (Do_path (Preference s p2)) with (Do_path s).
    intros Hq%(inj (String.app _)).
    unfold query_string, query_parameters in Hq. simpl in Hq.
    destruct (decide (p1 ≠ "")) as [Hp1|Hp1%dec_stable],
             (decide (p2 ≠ "")) as [Hp2|Hp2%dec_stable];
      [|exfalso..|congruence];
      destruct (decide (routing s ≠ "")), (pretty s); simpl in Hq;
      rewrite ?string_app_assoc in Hq;
      try (apply (f_equal String.length) in Hq;
           rewrite ?string_length_app in Hq; simpl in Hq; lia);
      repeat match type of Hq with
             | ?a +:+ _ = ?a +:+ _ => apply (inj (String.app a)) in Hq
             end;
      try apply string_app_inj_r in Hq;
      by apply QueryEscape_inj.
Qed.

End Requests.

Section Quirks.

Context `{!Collaborators}.

Implicit Types (s : SuggestService) (o : MapOrder).

(** X12: the path does not tell index names from type names: the same
    names given as indices or as types build the same path, and an
    index followed by a type reads as the one index whose name is the
    two names put together (when escaping the whole is escaping the
    parts). *)
Theorem X12_path_confuses_indices_and_types (c : Client)
    (names : list string) (x y : string) :
  Do_path (Indices (NewSuggestService c) names)
  = Do_path (Types (NewSuggestService c) names)
  ∧ Do_path (Type_ (Index (NewSuggestService c) x) y)
    = "/" +:+ cleanPathString x +:+ cleanPathString y +:+ "/_suggest"
  ∧ (cleanPathString (x +:+ y) = cleanPathString x +:+ cleanPathString y →
     Do_path (Type_ (Index (NewSuggestService c) x) y)
     = Do_path (Index (NewSuggestService c) (x +:+ y))).
Proof.
  rewrite !Do_path_eq. simpl. split_and!.
  - reflexivity.
  - reflexivity.
  - intros ->. by rewrite !string_app_assoc.
Qed.

(** X13: a suggester registered under the name [_shards] is sent with
    the request like any other, but what the response holds under that
    name is never returned. *)
Theorem X13_suggester_named_shards o s (sg : Suggester) :
  sg ∈ suggesters s → Name sg = "_shards" →
  "_shards" ∈ dom (Do_body s)
  ∧ ∀ ret, (Do o s).1 = Returned ret → ret !! "_shards" = None.
Proof.
  intros Hin Hname. split.
  - unfold Do_body. rewrite body_dom, elem_of_list_to_set, <- Hname.
    by apply list_elem_of_fmap_2.
  - intros ret Hret.
    destruct (Do_cases o s) as [(err & _ & Hrun)|(req & Hreq & Hrun)];
      [rewrite Hrun in Hret; discriminate|].
    destruct Hrun as [(err & _ & Hrun)|(res & Hres & Hrun)];
      [rewrite Hrun in Hret; discriminate|].
    destruct Hrun as [(err & _ & Hrun)|[Hcheck Hrun]];
      [rewrite Hrun in Hret; discriminate|].
    rewrite Hrun in Hret. simpl in Hret. unfold Do_decode in Hret.
    destruct (json.Decode_rawmap (Body res)) as [err|m]; [discriminate|].
    apply not_elem_of_dom. rewrite (Do_range_dom _ _ _ Hret), dom_empty_L.
    rewrite elem_of_union, elem_of_difference, elem_of_singleton.
    intros [Hempty|[_ Hne]]; [by apply not_elem_of_empty in Hempty|done].
Qed.

End Quirks.

(** * The further properties on concrete requests and responses *)


Lemma X5_witness :
  (Do canonical_order (NewSuggestService (Reference.answers 200 json.Null))).1
  = Returned ∅.
Proof.
  pose proof (X5_body_that_is_no_object canonical_order
                (NewSuggestService (Reference.answers 200 json.Null))
                {| Reference.Method := "POST"; Reference.URL := "//_suggest";
                   Reference.BodyJson := None |}
                {| Reference.StatusCode := 200;
                   Reference.Content := inr json.Null |}
                eq_refl eq_refl eq_refl) as (_ & Hnull & _).
  apply Hnull. reflexivity.
Defined.

Lemma X6_witness :
  ∃ ret : gmap string (list (Suggestion Reference.float32)),
    (Do reversed_order
       (NewSuggestService
          (Reference.answers 200
             (json.Object
                [("_shards", json.Number "1");
                 ("x", json.Array [json.Object [("text", json.String_ "a")]])])))).1
    = Returned ret
    ∧ ∀ k sgs,
        ret !! k = Some sgs
        ↔ k ≠ "_shards"
          ∧ ∃ elems,
              (<["x" := Some (json.Array [json.Object [("text", json.String_ "a")]])]>
                 (<["_shards" := Some (json.Number "1")]> ∅)
               : gmap string json.RawMessagePtr) !! k
              = Some (Some (json.Array elems))
              ∧ Forall2 (λ v sg, Reference.Unmarshal_Suggestion v = inr sg)
                  elems sgs.
Proof.
  eexists. split; [vm_compute; reflexivity|].
  refine (proj1 (X6_result_values reversed_order
                   (NewSuggestService
                      (Reference.answers 200
                         (json.Object
                            [("_shards", json.Number "1");
                             ("x", json.Array
                                     [json.Object [("text", json.String_ "a")]])])))
                   {| Reference.Method := "POST"; Reference.URL := "//_suggest";
                      Reference.BodyJson := None |}
                   {| Reference.StatusCode := 200;
                      Reference.Content :=
                        inr (json.Object
                               [("_shards", json.Number "1");
                                ("x", json.Array
                                        [json.Object [("text", json.String_ "a")]])]) |}
                   _ _ eq_refl eq_refl eq_refl eq_refl _)).
  vm_compute. reflexivity.
Defined.

Lemma X9_witness :
  Do_body
    (Suggester_
       (Suggester_ (NewSuggestService Reference.down)
          {| Name := "a"; Source := λ _, json.Number "1" |})
       {| Name := "b"; Source := λ _, json.Number "2" |})
  = Do_body
      (Suggester_
         (Suggester_ (NewSuggestService Reference.down)
            {| Name := "b"; Source := λ _, json.Number "2" |})
         {| Name := "a"; Source := λ _, json.Number "1" |}).
Proof.
  apply X9_body_order_of_distinct_names.
  - simpl. apply NoDup_cons. split.
    + intros Hin. apply list_elem_of_singleton in Hin. discriminate.
    + apply NoDup_singleton.
  - simpl. apply perm_swap.
Defined.

Lemma X13_witness :
  "_shards"
  ∈ dom (Do_body
           (Suggester_
              (NewSuggestService
                 (Reference.answers 200 (json.Object [("_shards", json.Array [])])))
              {| Name := "_shards"; Source := λ _, json.Object [] |}))
  ∧ ∀ ret,
      (Do canonical_order
         (Suggester_
            (NewSuggestService
               (Reference.answers 200 (json.Object [("_shards", json.Array [])])))
            {| Name := "_shards"; Source := λ _, json.Object [] |})).1
      = Returned ret →
      ret !! "_shards" = None.
Proof.
  apply (X13_suggester_named_shards canonical_order
           (Suggester_
              (NewSuggestService
                 (Reference.answers 200 (json.Object [("_shards", json.Array [])])))
              {| Name := "_shards"; Source := λ _, json.Object [] |})
           {| Name := "_shards"; Source := λ _, json.Object [] |}).
  - simpl. left.
  - reflexivity.
Defined.
